(** * my-backend: the JSON extractor, the medicine-data formatter and the
      POST /api/ai handler of [src/server.js]

    A shallow embedding of the three pieces of [server.js] and the properties
    the specification states about them.

    - Strings are JavaScript strings: finite sequences of UTF-16 code units.
    - [extractJson] is the function of lines 19-38; its two regular
      expressions are run by a backtracking matcher that tries every start
      index from the left and grows the lazy group one code unit at a time.
    - [formatMedicineData] is the function of lines 43-86, over the values
      [JSON.parse] can produce; a thrown [TypeError] is an explicit result.
    - The handler of lines 92-144 runs in a small monad that records the
      calls to the upstream model and to the console. *)

From Stdlib Require Import Ascii String.
From Stdlib Require Import List NArith ZArith Bool Lia.
Import ListNotations.

Set Implicit Arguments.

(* ================================================================== *)
(** * JavaScript strings *)
(* ================================================================== *)

Module JsString.

(** A UTF-16 code unit. Only the numeric value matters here. *)
Definition code_unit := N.

Definition jsstring := list code_unit.

(** A string literal of the source, all of which are ASCII. *)
Definition str (s : string) : jsstring :=
  map N_of_ascii (list_ascii_of_string s).

(** The line feed of [\n] and the double quote, which the literals of this
    file spell out by name. *)
Definition LF : jsstring := [10%N].
Definition DQ : jsstring := [34%N].

(** A source literal between double quotes. *)
Definition quoted (s : string) : jsstring := DQ ++ str s ++ DQ.

Definition code_eqb (a b : code_unit) : bool := N.eqb a b.

(** [WhiteSpace] and [LineTerminator] of ECMAScript: what [trim] strips. *)
Definition is_white_space (c : code_unit) : bool :=
  (  (9 <=? c) && (c <=? 13)            (* TAB LF VT FF CR *)
  || (c =? 32) || (c =? 160)            (* SP, NBSP *)
  || (c =? 5760)                        (* U+1680 *)
  || ((8192 <=? c) && (c <=? 8202))     (* U+2000 .. U+200A *)
  || (c =? 8232) || (c =? 8233)         (* LS, PS *)
  || (c =? 8239) || (c =? 8287)         (* U+202F, U+205F *)
  || (c =? 12288) || (c =? 65279))%N.   (* U+3000, U+FEFF *)

Fixpoint trimStart (s : jsstring) : jsstring :=
  match s with
  | [] => []
  | c :: s' => if is_white_space c then trimStart s' else s
  end.

Definition trimEnd (s : jsstring) : jsstring := rev (trimStart (rev s)).

(** [String.prototype.trim]. *)
Definition trim (s : jsstring) : jsstring := trimEnd (trimStart s).

(** [String.prototype.indexOf] with a one-unit needle: the first index, or
    [-1]. *)
Fixpoint indexOf_from (c : code_unit) (s : jsstring) (i : Z) : Z :=
  match s with
  | [] => (-1)%Z
  | x :: s' => if code_eqb x c then i else indexOf_from c s' (i + 1)%Z
  end.

Definition indexOf (s : jsstring) (c : code_unit) : Z := indexOf_from c s 0%Z.

(** [String.prototype.lastIndexOf] with a one-unit needle: the last index, or
    [-1]. *)
Fixpoint lastIndexOf_from (c : code_unit) (s : jsstring) (i found : Z) : Z :=
  match s with
  | [] => found
  | x :: s' =>
      lastIndexOf_from c s' (i + 1)%Z (if code_eqb x c then i else found)
  end.

Definition lastIndexOf (s : jsstring) (c : code_unit) : Z :=
  lastIndexOf_from c s 0%Z (-1)%Z.

(** [String.prototype.slice(start, end)]: negative arguments count from the
    end, both are clamped to the string, an empty span gives the empty
    string. *)
Definition slice (s : jsstring) (start end_ : Z) : jsstring :=
  let len := Z.of_nat (length s) in
  let from := if (start <? 0)%Z then Z.max (len + start) 0 else Z.min start len in
  let to := if (end_ <? 0)%Z then Z.max (len + end_) 0 else Z.min end_ len in
  firstn (Z.to_nat (to - from)) (skipn (Z.to_nat from) s).

(** [Array.prototype.join] on strings already converted. *)
Fixpoint join (sep : jsstring) (parts : list jsstring) : jsstring :=
  match parts with
  | [] => []
  | [p] => p
  | p :: rest => p ++ sep ++ join sep rest
  end.

End JsString.

Import JsString.

(* ================================================================== *)
(** * The two regular expressions of [extractJson] *)
(* ================================================================== *)

Module Regex.

(** [Canonicalize] of a non-unicode, ignore-case match. The patterns of this
    program are ASCII; a code unit of 128 or above never canonicalizes to an
    ASCII one, so upper-casing [a-z] alone decides every comparison against
    them. *)
Definition canonicalize (c : code_unit) : code_unit :=
  if ((97 <=? c) && (c <=? 122))%N then (c - 32)%N else c.

(** One pattern character against one input code unit. *)
Definition char_match (ignoreCase : bool) (p c : code_unit) : bool :=
  if ignoreCase then code_eqb (canonicalize p) (canonicalize c)
  else code_eqb p c.

(** A literal run of pattern characters at the head of the input; the result
    is the input left after it. *)
Fixpoint match_literal (ignoreCase : bool) (pat s : jsstring)
  : option jsstring :=
  match pat, s with
  | [], _ => Some s
  | _ :: _, [] => None
  | p :: pat', c :: s' =>
      if char_match ignoreCase p c then match_literal ignoreCase pat' s'
      else None
  end.

(** [([\s\S]*?)close]: the lazy group first tries to stop, and takes one
    more code unit (any one: [[\s\S]]) only when [close] does not follow. The
    result is the group. *)
Fixpoint match_lazy_group (ignoreCase : bool) (close s : jsstring)
  : option jsstring :=
  match match_literal ignoreCase close s with
  | Some _ => Some []
  | None =>
      match s with
      | [] => None
      | c :: s' => option_map (cons c) (match_lazy_group ignoreCase close s')
      end
  end.

(** [open([\s\S]*?)close] anchored at the head of the input. *)
Definition match_here (ignoreCase : bool) (open close s : jsstring)
  : option jsstring :=
  match match_literal ignoreCase open s with
  | Some rest => match_lazy_group ignoreCase close rest
  | None => None
  end.

(** [text.match(/open([\s\S]*?)close/)] without the [g] flag: the start
    indices are tried from the left, and the first that matches wins. The
    result is capture group 1, [None] for a [null] match. *)
Fixpoint regex_match (ignoreCase : bool) (open close s : jsstring)
  : option jsstring :=
  match match_here ignoreCase open close s with
  | Some g => Some g
  | None =>
      match s with
      | [] => None
      | _ :: s' => regex_match ignoreCase open close s'
      end
  end.

End Regex.

Import Regex.

(* ================================================================== *)
(** * [extractJson] (server.js, lines 19-38) *)
(* ================================================================== *)

Definition fence : jsstring := str "```".
Definition json_fence : jsstring := str "```json".
Definition open_brace : code_unit := 123%N.
Definition close_brace : code_unit := 125%N.

(** The argument is [None] for an absent ([undefined] or [null]) text; the
    result is [None] for [null]. *)
Definition extractJson (text : option jsstring) : option jsstring :=
  match text with
  | None => None
  | Some [] => None
  | Some text =>
      match regex_match true json_fence fence text with
      | Some fenced1 => Some (trim fenced1)
      | None =>
          match regex_match false fence fence text with
          | Some genericFenced1 => Some (trim genericFenced1)
          | None =>
              let start := indexOf text open_brace in
              let end_ := lastIndexOf text close_brace in
              if negb (start =? -1)%Z && negb (end_ =? -1)%Z
                 && (end_ >? start)%Z
              then Some (trim (slice text start (end_ + 1)%Z))
              else None
          end
      end
  end.

(* ================================================================== *)
(** * JavaScript values and completions *)
(* ================================================================== *)

(** What a statement can throw here. The detail of an upstream failure is
    whatever the client library reports. *)
Inductive exn : Type :=
  | TypeError
  | SyntaxError
  | UpstreamError (detail : jsstring).

(** A completion: a value, or a thrown exception. *)
Inductive result (A : Type) : Type :=
  | Ok (a : A)
  | Throw (e : exn).

Arguments Ok {A} a.
Arguments Throw {A} e.

Definition result_bind {A B : Type} (r : result A) (f : A -> result B)
  : result B :=
  match r with
  | Ok a => f a
  | Throw e => Throw e
  end.

Declare Scope result_scope.
Delimit Scope result_scope with result.
Notation "x <- r ;; k" := (result_bind r (fun x => k))
  (at level 61, r at next level, right associativity) : result_scope.

(** Completions in order: all the values, or the first exception. *)
Fixpoint sequence {A : Type} (rs : list (result A)) : result (list A) :=
  match rs with
  | [] => Ok []
  | r :: rest =>
      match r with
      | Throw e => Throw e
      | Ok a =>
          match sequence rest with
          | Throw e => Throw e
          | Ok others => Ok (a :: others)
          end
      end
  end.

Section Values.

(** The Number type is IEEE-754 binary64; it stays abstract. *)
Variable number : Type.

(** The values [JSON.parse] can produce. An object keeps its properties as
    an association list; [undefined] is the [None] of [option value]. *)
#[warning="-register-all"] Inductive value : Type :=
  | JNull
  | JBool (b : bool)
  | JNum (n : number)
  | JStr (s : jsstring)
  | JArr (items : list value)
  | JObj (props : list (jsstring * value)).

Fixpoint lookup (k : jsstring) (props : list (jsstring * value))
  : option value :=
  match props with
  | [] => None
  | (k', v) :: rest =>
      if list_eq_dec N.eq_dec k' k then Some v else lookup k rest
  end.

(** [v.k] for the property names this program reads ([name], [uses],
    [sideEffects], [note], [condition], [description], [severity],
    [effects], [query]): none of them is defined on a built-in prototype, so
    only an own property of an object answers; reading a property of [null]
    throws. *)
Definition get (v : value) (k : jsstring) : result (option value) :=
  match v with
  | JNull => Throw TypeError
  | JObj props => Ok (lookup k props)
  | _ => Ok None
  end.

(** No object inside [v] has an own property named [toString]. *)
Fixpoint plain (v : value) : bool :=
  match v with
  | JArr items => forallb plain items
  | JObj props =>
      match lookup (str "toString") props with
      | Some _ => false
      | None => forallb (fun kv => plain (snd kv)) props
      end
  | _ => true
  end.

(** [Array.isArray(x)]. *)
Definition isArray (x : option value) : option (list value) :=
  match x with
  | Some (JArr items) => Some items
  | _ => None
  end.

End Values.

Arguments JNull {number}.
Arguments JBool {number} b.
Arguments JStr {number} s.
Arguments JArr {number} items.
Arguments JObj {number} props.

(** The built-ins of the engine this program relies on and whose results it
    never inspects: the Number operations, and [JSON.stringify], which on a
    value that came out of [JSON.parse] always returns a string. *)
Class Runtime : Type := {
  number : Type;
  (** the Number a JSON number literal denotes *)
  number_of_literal : jsstring -> number;
  (** [ToBoolean] on a Number: false on [+0] and [-0] *)
  number_truthy : number -> bool;
  (** [Number::toString] *)
  number_to_string : number -> jsstring;
  JSON_stringify : value number -> jsstring
}.

Section Formatter.

Context {R : Runtime}.

Local Abbreviation jsvalue := (value number).

(** [ToBoolean]. *)
Definition truthy (x : option jsvalue) : bool :=
  match x with
  | None => false
  | Some JNull => false
  | Some (JBool b) => b
  | Some (JNum n) => number_truthy n
  | Some (JStr s) => match s with [] => false | _ => true end
  | Some (JArr _) => true
  | Some (JObj _) => true
  end.

(** [ToString], as a template literal and [join] apply it. An array goes
    through [Array.prototype.join] with a comma, where [null] elements give
    the empty string. An object gives ["[object Object]"] through
    [Object.prototype.toString], unless an own property named [toString]
    hides it: that property is not callable, [valueOf] returns no primitive
    either, and the conversion throws. *)
Fixpoint to_string (v : jsvalue) : result jsstring :=
  match v with
  | JNull => Ok (str "null")
  | JBool true => Ok (str "true")
  | JBool false => Ok (str "false")
  | JNum n => Ok (number_to_string n)
  | JStr s => Ok s
  | JArr items =>
      match sequence (map (fun x => match x with
                                    | JNull => Ok []
                                    | _ => to_string x
                                    end) items) with
      | Throw e => Throw e
      | Ok parts => Ok (join (str ",") parts)
      end
  | JObj props =>
      match lookup (str "toString") props with
      | Some _ => Throw TypeError
      | None => Ok (str "[object Object]")
      end
  end.

(** The conversion [join] applies to an element: [undefined] and [null]
    give the empty string. *)
Definition element_to_string (x : option jsvalue) : result jsstring :=
  match x with
  | None | Some JNull => Ok []
  | Some v => to_string v
  end.

(** [x || fallback] followed by the conversion of a template literal. *)
Definition to_string_or (x : option jsvalue) (fallback : jsstring)
  : result jsstring :=
  match x with
  | Some v => if truthy x then to_string v else Ok fallback
  | None => Ok fallback
  end.

Open Scope result_scope.

(** [[u.condition, u.description].filter(Boolean).join(': ')]. *)
Definition condition_line (condition description : option jsvalue)
  : result jsstring :=
  let kept := filter truthy [condition; description] in
  parts <- sequence (map element_to_string kept) ;;
  Ok (join (str ": ") parts).

(** One turn of [for (const u of data.uses)] (lines 48-56). *)
Definition format_use (message : jsstring) (u : jsvalue) : result jsstring :=
  match u with
  | JStr s => Ok (message ++ str "- " ++ s ++ LF)
  | JArr _ | JObj _ =>
      condition <- get u (str "condition") ;;
      description <- get u (str "description") ;;
      line <- condition_line condition description ;;
      Ok (message ++ str "- "
            ++ match line with [] => JSON_stringify u | _ => line end ++ LF)
  | _ => Ok message
  end.

Fixpoint format_uses (message : jsstring) (uses : list jsvalue)
  : result jsstring :=
  match uses with
  | [] => Ok message
  | u :: rest => message' <- format_use message u ;; format_uses message' rest
  end.

(** [for (const effect of group.effects)] (lines 71-73). *)
Fixpoint format_effects (message : jsstring) (effects : list jsvalue)
  : result jsstring :=
  match effects with
  | [] => Ok message
  | effect :: rest =>
      s <- to_string effect ;;
      format_effects (message ++ str "  - " ++ s ++ LF) rest
  end.

(** One turn of [for (const group of data.sideEffects)] (lines 63-75). *)
Definition format_group (message : jsstring) (group : jsvalue)
  : result jsstring :=
  match group with
  | JStr s => Ok (message ++ str "- " ++ s ++ LF ++ LF)
  | _ =>
      severity <- get group (str "severity") ;;
      sev <- to_string_or severity (str "Severity not specified") ;;
      let message := message ++ str "- " ++ sev ++ str ":" ++ LF in
      effects <- get group (str "effects") ;;
      message <- match isArray effects with
                 | Some items => format_effects message items
                 | None => Ok message
                 end ;;
      Ok (message ++ LF)
  end.

Fixpoint format_groups (message : jsstring) (groups : list jsvalue)
  : result jsstring :=
  match groups with
  | [] => Ok message
  | group :: rest =>
      message' <- format_group message group ;; format_groups message' rest
  end.

Definition default_note : jsstring :=
  str "This information is for educational purposes only. Always consult a qualified healthcare professional.".

(** [formatMedicineData] (server.js, lines 43-86). *)
Definition formatMedicineData (data : jsvalue) : result jsstring :=
  name <- get data (str "name") ;;
  head <- to_string_or name (str "Unknown medicine") ;;
  let message := head ++ LF ++ LF in
  uses <- get data (str "uses") ;;
  message <- match isArray uses with
             | Some ((_ :: _) as items) =>
                 message <- format_uses (message ++ str "Uses:" ++ LF) items ;;
                 Ok (message ++ LF)
             | _ => Ok message
             end ;;
  sideEffects <- get data (str "sideEffects") ;;
  message <- match isArray sideEffects with
             | Some ((_ :: _) as groups) =>
                 format_groups (message ++ str "Side Effects:" ++ LF) groups
             | _ => Ok message
             end ;;
  note <- get data (str "note") ;;
  message <- (if truthy note
              then s <- to_string_or note [] ;;
                   Ok (message ++ str "Note:" ++ LF ++ s ++ LF)
              else Ok (message ++ str "Note:" ++ LF ++ default_note ++ LF)) ;;
  Ok (trim message).

End Formatter.

(* ================================================================== *)
(** * [JSON.parse] *)
(* ================================================================== *)

Section JsonParse.

Context {R : Runtime}.

Local Abbreviation jsvalue := (value number).

(** JSON white space: space, tab, line feed, carriage return. *)
Definition is_json_ws (c : code_unit) : bool :=
  ((c =? 32) || (c =? 9) || (c =? 10) || (c =? 13))%N.

Fixpoint skip_ws (s : jsstring) : jsstring :=
  match s with
  | c :: s' => if is_json_ws c then skip_ws s' else s
  | [] => []
  end.

Definition is_digit (c : code_unit) : bool := ((48 <=? c) && (c <=? 57))%N.

Definition hex_digit (c : code_unit) : option N :=
  if ((48 <=? c) && (c <=? 57))%N then Some (c - 48)%N
  else if ((97 <=? c) && (c <=? 102))%N then Some (c - 87)%N
  else if ((65 <=? c) && (c <=? 70))%N then Some (c - 55)%N
  else None.

Definition hex4 (a b c d : code_unit) : option code_unit :=
  match hex_digit a, hex_digit b, hex_digit c, hex_digit d with
  | Some x, Some y, Some z, Some w => Some (((x * 16 + y) * 16 + z) * 16 + w)%N
  | _, _, _, _ => None
  end.

(** The character a two-character escape stands for. *)
Definition simple_escape (c : code_unit) : option code_unit :=
  if (c =? 34)%N then Some 34%N            (* quote *)
  else if (c =? 92)%N then Some 92%N       (* backslash *)
  else if (c =? 47)%N then Some 47%N       (* slash *)
  else if (c =? 98)%N then Some 8%N        (* backspace *)
  else if (c =? 102)%N then Some 12%N      (* form feed *)
  else if (c =? 110)%N then Some 10%N      (* line feed *)
  else if (c =? 114)%N then Some 13%N      (* carriage return *)
  else if (c =? 116)%N then Some 9%N       (* tab *)
  else None.

(** A JSON string after its opening quote: the string it denotes and the
    input after the closing quote. *)
Fixpoint parse_string_body (s : jsstring) : option (jsstring * jsstring) :=
  match s with
  | [] => None
  | c :: s' =>
      if (c =? 34)%N then Some ([], s')
      else if (c =? 92)%N then
        match s' with
        | [] => None
        | e :: s'' =>
            if (e =? 117)%N then
              match s'' with
              | h1 :: h2 :: h3 :: h4 :: s3 =>
                  match hex4 h1 h2 h3 h4 with
                  | Some u =>
                      match parse_string_body s3 with
                      | Some (t, rest) => Some (u :: t, rest)
                      | None => None
                      end
                  | None => None
                  end
              | _ => None
              end
            else
              match simple_escape e with
              | Some u =>
                  match parse_string_body s'' with
                  | Some (t, rest) => Some (u :: t, rest)
                  | None => None
                  end
              | None => None
              end
        end
      else if (c <? 32)%N then None
      else
        match parse_string_body s' with
        | Some (t, rest) => Some (c :: t, rest)
        | None => None
        end
  end.

(** The longest run of digits at the head of the input. *)
Fixpoint span_digits (s : jsstring) : jsstring * jsstring :=
  match s with
  | c :: s' =>
      if is_digit c then let (d, rest) := span_digits s' in (c :: d, rest)
      else ([], s)
  | [] => ([], [])
  end.

(** The integer part: [0], or a non-zero digit and more digits. *)
Definition scan_int (s : jsstring) : option (jsstring * jsstring) :=
  match s with
  | c :: s' =>
      if (c =? 48)%N then Some ([c], s')
      else if is_digit c then let (d, rest) := span_digits s' in Some (c :: d, rest)
      else None
  | [] => None
  end.

(** The optional fraction: a dot and at least one digit. *)
Definition scan_frac (s : jsstring) : option (jsstring * jsstring) :=
  match s with
  | c :: s' =>
      if (c =? 46)%N then
        match span_digits s' with
        | ([], _) => None
        | (d, rest) => Some (c :: d, rest)
        end
      else Some ([], s)
  | [] => Some ([], [])
  end.

(** The optional exponent: [e] or [E], an optional sign, at least one
    digit. *)
Definition scan_exp (s : jsstring) : option (jsstring * jsstring) :=
  match s with
  | c :: s' =>
      if ((c =? 101) || (c =? 69))%N then
        let (sign, s'') :=
          match s' with
          | g :: t => if ((g =? 43) || (g =? 45))%N then ([g], t) else ([], s')
          | [] => ([], s')
          end in
        match span_digits s'' with
        | ([], _) => None
        | (d, rest) => Some (c :: sign ++ d, rest)
        end
      else Some ([], s)
  | [] => Some ([], [])
  end.

(** A JSON number: the literal and the input after it. *)
Definition scan_number (s : jsstring) : option (jsstring * jsstring) :=
  let (sign, s1) :=
    match s with
    | c :: t => if (c =? 45)%N then ([c], t) else ([], s)
    | [] => ([], s)
    end in
  match scan_int s1 with
  | None => None
  | Some (i, s2) =>
      match scan_frac s2 with
      | None => None
      | Some (f, s3) =>
          match scan_exp s3 with
          | None => None
          | Some (e, s4) => Some (sign ++ i ++ f ++ e, s4)
          end
      end
  end.

(** Defining a property: a name already there keeps its place and takes the
    new value, a new name goes last. *)
Fixpoint obj_set (props : list (jsstring * jsvalue)) (k : jsstring)
  (v : jsvalue) : list (jsstring * jsvalue) :=
  match props with
  | [] => [(k, v)]
  | (k', v') :: rest =>
      if list_eq_dec N.eq_dec k' k then (k', v) :: rest
      else (k', v') :: obj_set rest k v
  end.

Definition literal_true : jsstring := str "true".
Definition literal_false : jsstring := str "false".
Definition literal_null : jsstring := str "null".

(** The three mutually recursive productions, each written over the
    productions it calls: a value, the elements of an array after its
    bracket or a comma, the members of an object after its brace or a
    comma. Each returns what it read and the input after it. *)
Section Productions.

Variable value_at : jsstring -> option (jsvalue * jsstring).
Variable elements_at
  : jsstring -> list jsvalue -> option (jsvalue * jsstring).
Variable members_at
  : jsstring -> list (jsstring * jsvalue) -> option (jsvalue * jsstring).

Definition parse_value_step (s : jsstring) : option (jsvalue * jsstring) :=
  match skip_ws s with
  | [] => None
  | c :: rest =>
      if (c =? 123)%N then                       (* an object *)
        match skip_ws rest with
        | d :: rest' =>
            if (d =? 125)%N then Some (JObj [], rest')
            else members_at rest []
        | [] => None
        end
      else if (c =? 91)%N then                   (* an array *)
        match skip_ws rest with
        | d :: rest' =>
            if (d =? 93)%N then Some (JArr [], rest')
            else elements_at rest []
        | [] => None
        end
      else if (c =? 34)%N then                   (* a string *)
        match parse_string_body rest with
        | Some (t, rest') => Some (JStr t, rest')
        | None => None
        end
      else if (c =? 45)%N || is_digit c then     (* a number *)
        match scan_number (c :: rest) with
        | Some (lit, rest') => Some (JNum (number_of_literal lit), rest')
        | None => None
        end
      else
        match match_literal false literal_true (c :: rest) with
        | Some rest' => Some (JBool true, rest')
        | None =>
            match match_literal false literal_false (c :: rest) with
            | Some rest' => Some (JBool false, rest')
            | None =>
                match match_literal false literal_null (c :: rest) with
                | Some rest' => Some (JNull, rest')
                | None => None
                end
            end
        end
  end.

Definition parse_elements_step (s : jsstring) (acc : list jsvalue)
  : option (jsvalue * jsstring) :=
  match value_at s with
  | None => None
  | Some (v, rest) =>
      match skip_ws rest with
      | d :: rest' =>
          if (d =? 44)%N then elements_at rest' (acc ++ [v])
          else if (d =? 93)%N then Some (JArr (acc ++ [v]), rest')
          else None
      | [] => None
      end
  end.

Definition parse_members_step (s : jsstring)
  (acc : list (jsstring * jsvalue)) : option (jsvalue * jsstring) :=
  match skip_ws s with
  | q :: s1 =>
      if (q =? 34)%N then
        match parse_string_body s1 with
        | None => None
        | Some (k, s2) =>
            match skip_ws s2 with
            | colon :: s3 =>
                if (colon =? 58)%N then
                  match value_at s3 with
                  | None => None
                  | Some (v, s4) =>
                      match skip_ws s4 with
                      | d :: s5 =>
                          if (d =? 44)%N
                          then members_at s5 (obj_set acc k v)
                          else if (d =? 125)%N
                          then Some (JObj (obj_set acc k v), s5)
                          else None
                      | [] => None
                      end
                  end
                else None
            | [] => None
            end
        end
      else None
  | [] => None
  end.

End Productions.

(** The productions tied together. One unit of fuel is spent per call. *)
Fixpoint parse_value (fuel : nat) (s : jsstring) {struct fuel}
  : option (jsvalue * jsstring) :=
  match fuel with
  | O => None
  | S fuel' =>
      parse_value_step (parse_elements fuel') (parse_members fuel') s
  end

with parse_elements (fuel : nat) (s : jsstring) (acc : list jsvalue)
  {struct fuel} : option (jsvalue * jsstring) :=
  match fuel with
  | O => None
  | S fuel' =>
      parse_elements_step (parse_value fuel') (parse_elements fuel') s acc
  end

with parse_members (fuel : nat) (s : jsstring)
  (acc : list (jsstring * jsvalue)) {struct fuel}
  : option (jsvalue * jsstring) :=
  match fuel with
  | O => None
  | S fuel' =>
      parse_members_step (parse_value fuel') (parse_members fuel') s acc
  end.

(** [JSON.parse(text)]: one value with white space around it and nothing
    else, or a [SyntaxError]. The fuel is more than any text can use (see
    [parse_value_fuel]). *)
Definition JSON_parse (text : jsstring) : result jsvalue :=
  match parse_value (2 * length text + 2) text with
  | Some (v, rest) =>
      match skip_ws rest with
      | [] => Ok v
      | _ :: _ => Throw SyntaxError
      end
  | None => Throw SyntaxError
  end.

End JsonParse.

(* ================================================================== *)
(** * The handler of POST /api/ai (server.js, lines 92-144) *)
(* ================================================================== *)

(** What the handler does to the world besides answering: calls to the
    upstream client and to the console, in order. *)
Inductive event : Type :=
  | GetGenerativeModel (model : jsstring)
  | GenerateContent (prompt : jsstring)
  | ConsoleWarn (msg : jsstring)
  | ConsoleError (msg : jsstring) (err : exn).

(** The upstream capability. [generateContent] stands for lines 121-123 up
    to [response.text()]: the text of the completion, or what was thrown or
    rejected on the way. *)
Record upstream : Type := {
  getGenerativeModel : jsstring -> result unit;
  generateContent : jsstring -> result jsstring
}.

(** Computations that append to the trace of events and may throw. *)
Module Eff.

Definition M (A : Type) : Type := list event -> result A * list event.

Definition ret {A : Type} (a : A) : M A := fun tr => (Ok a, tr).

Definition bind {A B : Type} (m : M A) (f : A -> M B) : M B :=
  fun tr =>
    match m tr with
    | (Ok a, tr') => f a tr'
    | (Throw e, tr') => (Throw e, tr')
    end.

Definition lift {A : Type} (r : result A) : M A := fun tr => (r, tr).

Definition emit (ev : event) : M unit := fun tr => (Ok tt, tr ++ [ev]).

(** [try { m } catch (err) { h err }]. *)
Definition try_catch {A : Type} (m : M A) (h : exn -> M A) : M A :=
  fun tr =>
    match m tr with
    | (Ok a, tr') => (Ok a, tr')
    | (Throw e, tr') => h e tr'
    end.

Definition run {A : Type} (m : M A) : result A * list event := m [].

End Eff.

Declare Scope eff_scope.
Delimit Scope eff_scope with eff.
Notation "x <- m ;; k" := (Eff.bind m (fun x => k))
  (at level 61, m at next level, right associativity) : eff_scope.
Notation "m ;; k" := (Eff.bind m (fun _ => k))
  (at level 61, right associativity) : eff_scope.

Section Handler.

Context {R : Runtime}.

Local Abbreviation jsvalue := (value number).

(** What [res.status(s).json(b)] sends; [res.json(b)] sends status 200. *)
Record response : Type := {
  status : Z;
  body : jsvalue
}.

Definition severity_line (label : string) (last : bool) : jsstring :=
  str "    { " ++ quoted "severity" ++ str ": " ++ quoted label ++ str ", "
  ++ quoted "effects" ++ str ": [" ++ quoted "string" ++ str ", "
  ++ quoted "string" ++ str "] }" ++ (if last then [] else str ",").

(** The template literal of lines 101-119, before and after [${query}]. *)
Definition prompt_before_query : jsstring :=
  LF ++ str "Return ONLY valid JSON for the medicine " ++ DQ.

Definition prompt_after_query : jsstring :=
  DQ ++ str " using EXACTLY this schema:" ++ LF
  ++ LF
  ++ str "{" ++ LF
  ++ str "  " ++ quoted "name" ++ str ": " ++ quoted "string" ++ str "," ++ LF
  ++ str "  " ++ quoted "uses" ++ str ": [" ++ quoted "string" ++ str ", "
     ++ quoted "string" ++ str ", ...]," ++ LF
  ++ str "  " ++ quoted "sideEffects" ++ str ": [" ++ LF
  ++ severity_line "Common (affecting more than 1 in 100 people)" false ++ LF
  ++ severity_line "Uncommon (affecting 1 to 10 in 1000 people)" false ++ LF
  ++ severity_line "Rare (affecting 1 to 10 in 10,000 people)" false ++ LF
  ++ severity_line "Very Rare (affecting less than 1 in 10,000 people)" false
     ++ LF
  ++ severity_line "Other potential side effects" false ++ LF
  ++ severity_line "Overdose side effects" true ++ LF
  ++ str "  ]," ++ LF
  ++ str "  " ++ quoted "note" ++ str ": " ++ quoted "string" ++ LF
  ++ str "}" ++ LF
  ++ LF
  ++ str "Do not add any commentary outside JSON. Do not wrap it in Markdown unless it's a JSON code fence."
  ++ LF.

Definition json_error (message : string) : jsvalue :=
  JObj [(str "error", JStr (str message))].

Definition bad_request : response :=
  {| status := 400; body := json_error "query is required" |}.

Definition upstream_failed : response :=
  {| status := 500; body := json_error "Gemini AI request failed" |}.

(** [res.json({ text: formattedText, raw: parsed })], where [parsed] is
    still [null] when nothing was parsed. *)
Definition answer (formattedText : jsstring) (parsed : option jsvalue)
  : response :=
  {| status := 200;
     body := JObj [(str "text", JStr formattedText);
                   (str "raw", match parsed with Some v => v | None => JNull end)]
  |}.

Definition warning : jsstring :=
  str "Could not parse JSON from Gemini, returning raw text.".

(** What [extractJson(rawText) ?? rawText] hands to [JSON.parse]. *)
Definition json_candidate (rawText : jsstring) : jsstring :=
  match extractJson (Some rawText) with
  | Some found => found
  | None => rawText
  end.

Open Scope eff_scope.

(** Lines 125-134: the locals [parsed] and [formattedText] start as [null]
    and [rawText]; each is assigned when its statement completes, and the
    [catch] leaves whatever was assigned before the throw. The result is
    the pair of the two locals after the block. *)
Definition parse_and_format (rawText : jsstring)
  : Eff.M (option jsvalue * jsstring) :=
  let jsonString := json_candidate rawText in
  match JSON_parse jsonString with
  | Throw _ => Eff.emit (ConsoleWarn warning) ;; Eff.ret (None, rawText)
  | Ok parsed =>
      match formatMedicineData parsed with
      | Throw _ =>
          Eff.emit (ConsoleWarn warning) ;; Eff.ret (Some parsed, rawText)
      | Ok formattedText => Eff.ret (Some parsed, formattedText)
      end
  end.

Definition model_name : jsstring := str "gemini-1.5-flash".

(** The template literal of lines 101-119 around the converted query. *)
Definition prompt_for (q : jsstring) : jsstring :=
  prompt_before_query ++ q ++ prompt_after_query.

(** [req.body ?? {}], where [req_body] is [None] for [undefined]. *)
Definition body_or_empty (req_body : option jsvalue) : jsvalue :=
  match req_body with
  | None | Some JNull => JObj []
  | Some b => b
  end.

(** The handler. *)
Definition handler (up : upstream) (req_body : option jsvalue)
  : Eff.M response :=
  query <- Eff.lift (get (body_or_empty req_body) (str "query")) ;;
  if negb (truthy query) then Eff.ret bad_request
  else
    Eff.try_catch
      (Eff.emit (GetGenerativeModel model_name) ;;
       Eff.lift (getGenerativeModel up model_name) ;;
       q <- Eff.lift (to_string_or query (str "undefined")) ;;
       let prompt := prompt_for q in
       Eff.emit (GenerateContent prompt) ;;
       text <- Eff.lift (generateContent up prompt) ;;
       let rawText := text in                     (* response.text() || '' *)
       locals <- parse_and_format rawText ;;
       Eff.ret (answer (snd locals) (fst locals)))
      (fun err =>
         Eff.emit (ConsoleError (str "Gemini Error:") err) ;;
         Eff.ret upstream_failed).

(** The request reaches the upstream and the completion comes back as
    [rawText]: the query is truthy and converts to a string, and neither
    upstream call throws. *)
Definition upstream_returns (up : upstream) (req_body : option jsvalue)
  (rawText : jsstring) : Prop :=
  exists query q,
    get (body_or_empty req_body) (str "query") = Ok (Some query)
    /\ truthy (Some query) = true
    /\ getGenerativeModel up model_name = Ok tt
    /\ to_string query = Ok q
    /\ generateContent up (prompt_for q) = Ok rawText.

(** The request reaches the upstream and an upstream call throws or rejects
    with [err], after the calls [calls]. *)
Definition upstream_throws (up : upstream) (req_body : option jsvalue)
  (err : exn) (calls : list event) : Prop :=
  exists query,
    get (body_or_empty req_body) (str "query") = Ok (Some query)
    /\ truthy (Some query) = true
    /\ ((getGenerativeModel up model_name = Throw err
         /\ calls = [GetGenerativeModel model_name])
        \/ (exists q,
              getGenerativeModel up model_name = Ok tt
              /\ to_string query = Ok q
              /\ generateContent up (prompt_for q) = Throw err
              /\ calls = [GetGenerativeModel model_name;
                          GenerateContent (prompt_for q)])).

(** The falsy values a JSON body can give [query]: the empty string, a zero
    Number, [false] and [null]. *)
Definition falsy_query (q : jsvalue) : Prop :=
  q = JStr [] \/ q = JBool false \/ q = JNull
  \/ exists n, q = JNum n /\ number_truthy n = false.

End Handler.

(* ================================================================== *)
(** * The vocabulary of the specification *)
(* ================================================================== *)

(** [m] is an occurrence of the pattern text [pat]: the same length, and
    each code unit is the pattern's, up to case when [ignoreCase]. *)
Definition reads_as (ignoreCase : bool) (pat m : jsstring) : Prop :=
  Forall2 (fun p c => char_match ignoreCase p c = true) pat m.

(** A fenced block of [text]: an opening marker that reads as [open], an
    interior [body], and a closing fence, with [pre] before and [post]
    after. *)
Definition block (ignoreCase : bool) (open text pre body post : jsstring)
  : Prop :=
  exists op cl,
    text = pre ++ op ++ body ++ cl ++ post
    /\ reads_as ignoreCase open op /\ reads_as ignoreCase fence cl.

(** A fenced block labeled as JSON, in any letter case. *)
Definition json_block : jsstring -> jsstring -> jsstring -> jsstring -> Prop :=
  block true json_fence.

(** A generic fenced block: three backticks, anything, three backticks. *)
Definition generic_block
  : jsstring -> jsstring -> jsstring -> jsstring -> Prop :=
  block false fence.

(** The first block of a kind: no block of the kind opens further left, and
    among those that open at the same place none closes earlier. *)
Definition first_block (B : jsstring -> jsstring -> jsstring -> Prop)
  (pre body post : jsstring) : Prop :=
  B pre body post
  /\ forall pre' body' post',
       B pre' body' post' ->
       length pre < length pre'
       \/ (length pre = length pre' /\ length body <= length body').

(** The first [{] of [text] comes strictly before its last [}], with [mid]
    between the two. *)
Definition brace_span (text pre mid post : jsstring) : Prop :=
  text = pre ++ open_brace :: mid ++ close_brace :: post
  /\ ~ In open_brace pre /\ ~ In close_brace post.

(** A runtime to close statements on concrete inputs with: a Number is kept
    as the literal it was read from and is never zero, and every value
    serializes to the same text. None of the concrete inputs below carries a
    number or reaches [JSON.stringify]. *)
Definition literal_runtime : Runtime :=
  {| number := jsstring;
     number_of_literal := fun lit => lit;
     number_truthy := fun _ => true;
     number_to_string := fun lit => lit;
     JSON_stringify := fun _ => str "{}" |}.

(** An upstream that answers every prompt with [text]. *)
Definition upstream_answering (text : jsstring) : upstream :=
  {| getGenerativeModel := fun _ => Ok tt;
     generateContent := fun _ => Ok text |}.

(** An upstream whose completion call rejects with [err]. *)
Definition upstream_rejecting (err : exn) : upstream :=
  {| getGenerativeModel := fun _ => Ok tt;
     generateContent := fun _ => Throw err |}.

(** A production that, when it succeeds, has read at least one code
    unit. *)
Definition consumes {V : Type} (p : jsstring -> option (V * jsstring))
  : Prop :=
  forall s v r, p s = Some (v, r) -> length r < length s.

(** Concrete texts. [sample_labelled] has a generic block and stray braces
    around its JSON block; [sample_unclosed_label] has a JSON label that is
    never closed after a generic block; [sample_braces] has no fence. *)
Definition sample_labelled : jsstring :=
  str "} ``` a ``` " ++ str "```JSON" ++ LF ++ str "{x}" ++ LF ++ str "```"
  ++ str " { ```json b ```".

Definition sample_unclosed_label : jsstring := str "``` a ```json b".

Definition sample_braces : jsstring := str "a {b} c } d".

(** The reply of the round-trip scenario and the JSON text inside it. *)
Definition aspirin_json : jsstring :=
  str "{" ++ quoted "name" ++ str ":" ++ quoted "Aspirin" ++ str "}".

Definition aspirin_reply : jsstring :=
  str "prefix ```json" ++ LF ++ aspirin_json ++ LF ++ str "```" ++ LF
  ++ str "suffix".

(** A request body [{ query: 'aspirin' }], over any runtime. *)
Definition aspirin_request {R : Runtime} : option (value number) :=
  Some (JObj [(str "query", JStr (str "aspirin"))]).

(* ================================================================== *)
(** * The vocabulary of the further properties *)
(* ================================================================== *)

(** Nothing but white space. *)
Definition white (s : jsstring) : Prop :=
  Forall (fun c => is_white_space c = true) s.

(** No white space at either end. *)
Definition trimmed (s : jsstring) : Prop :=
  (forall c rest, s = c :: rest -> is_white_space c = false)
  /\ (forall init c, s = init ++ [c] -> is_white_space c = false).

(** [s] occurs in [text] as one contiguous piece. *)
Definition substring_of (s text : jsstring) : Prop :=
  exists pre post, text = pre ++ s ++ post.

(** A MedicineInfo as the prompt of lines 101-119 asks for it: every field
    present and of the asked type. *)
Record severity_group : Type := {
  sg_severity : jsstring;
  sg_effects : list jsstring
}.

Record medicine_info : Type := {
  mi_name : jsstring;
  mi_uses : list jsstring;
  mi_sideEffects : list severity_group;
  mi_note : jsstring
}.

(** What [s || fallback] is on strings. *)
Definition or_default (s fallback : jsstring) : jsstring :=
  match s with
  | [] => fallback
  | _ :: _ => s
  end.

(** The report on a MedicineInfo, section by section. *)
Definition report_uses (uses : list jsstring) : jsstring :=
  match uses with
  | [] => []
  | _ :: _ =>
      str "Uses:" ++ LF ++ concat (map (fun u => str "- " ++ u ++ LF) uses)
      ++ LF
  end.

Definition report_group (g : severity_group) : jsstring :=
  str "- " ++ or_default (sg_severity g) (str "Severity not specified")
  ++ str ":" ++ LF
  ++ concat (map (fun e => str "  - " ++ e ++ LF) (sg_effects g)) ++ LF.

Definition report_sideEffects (groups : list severity_group) : jsstring :=
  match groups with
  | [] => []
  | _ :: _ => str "Side Effects:" ++ LF ++ concat (map report_group groups)
  end.

Definition report (m : medicine_info) : jsstring :=
  or_default (mi_name m) (str "Unknown medicine") ++ LF ++ LF
  ++ report_uses (mi_uses m)
  ++ report_sideEffects (mi_sideEffects m)
  ++ str "Note:" ++ LF
  ++ or_default (mi_note m)
       (str "This information is for educational purposes only. Always consult a qualified healthcare professional.")
  ++ LF.

Section Schema.

Context {R : Runtime}.

(** The value [g] is an object with the two properties of a severity
    group, whatever else it carries. *)
Definition group_conforms (g : value number) (sg : severity_group) : Prop :=
  exists props,
    g = JObj props
    /\ lookup (str "severity") props = Some (JStr (sg_severity sg))
    /\ lookup (str "effects") props
       = Some (JArr (map (fun e => JStr e) (sg_effects sg))).

(** The object with properties [props] carries the MedicineInfo [m]: the four
    fields are there with the asked types, in any order and among any other
    properties. *)
Definition conforms (props : list (jsstring * value number))
  (m : medicine_info) : Prop :=
  lookup (str "name") props = Some (JStr (mi_name m))
  /\ lookup (str "uses") props
     = Some (JArr (map (fun u => JStr u) (mi_uses m)))
  /\ (exists groups,
        lookup (str "sideEffects") props = Some (JArr groups)
        /\ Forall2 group_conforms groups (mi_sideEffects m))
  /\ lookup (str "note") props = Some (JStr (mi_note m)).

(** What [Array.isArray(x) && x.length] refuses: anything but a non-empty
    array. *)
Definition no_items (x : option (value number)) : Prop :=
  isArray x = None \/ isArray x = Some [].

End Schema.

(** The entries of [uses] the loop of lines 48-56 writes a line for:
    strings and objects (arrays are objects); it passes over the rest. *)
Definition is_rendered_use {number : Type} (u : value number) : bool :=
  match u with
  | JStr _ | JArr _ | JObj _ => true
  | _ => false
  end.

Definition is_generate (ev : event) : bool :=
  match ev with
  | GenerateContent _ => true
  | _ => false
  end.

Definition is_console_error (ev : event) : bool :=
  match ev with
  | ConsoleError _ _ => true
  | _ => false
  end.

(** Concrete inputs of the further properties: a reply whose first fence is
    empty and is followed by a JSON object; a conforming object, with a
    property the schema does not know. *)
Definition empty_fence_reply : jsstring := str "``` ``` " ++ aspirin_json.

Definition ibuprofen : medicine_info :=
  {| mi_name := str "Ibuprofen";
     mi_uses := [str "pain"; str "fever"];
     mi_sideEffects :=
       [{| sg_severity := str "Common"; sg_effects := [str "nausea"] |};
        {| sg_severity := []; sg_effects := [] |}];
     mi_note := [] |}.

Definition ibuprofen_props {R : Runtime} : list (jsstring * value number) :=
  [(str "brand", JStr (str "Advil"));
   (str "note", JStr []);
   (str "sideEffects",
    JArr [JObj [(str "effects", JArr [JStr (str "nausea")]);
                (str "severity", JStr (str "Common"))];
          JObj [(str "severity", JStr []); (str "effects", JArr [])]]);
   (str "uses", JArr [JStr (str "pain"); JStr (str "fever")]);
   (str "name", JStr (str "Ibuprofen"))].

(* ================================================================== *)
(** * Strings: occurrences, trimming, searching *)
(* ================================================================== *)

Unset Implicit Arguments.

Lemma reads_as_length ic pat m : reads_as ic pat m -> length m = length pat.
Proof.
  intros H. symmetry. eapply Forall2_length. exact H.
Qed.

Lemma canonicalize_backtick c :
  code_eqb (canonicalize 96%N) (canonicalize c) = true -> c = 96%N.
Proof.
  unfold code_eqb. change (canonicalize 96%N) with 96%N. unfold canonicalize.
  destruct ((97 <=? c)%N && (c <=? 122)%N) eqn:E; intros H;
    apply N.eqb_eq in H.
  - apply andb_true_iff in E. destruct E as [E1 E2].
    apply N.leb_le in E1. apply N.leb_le in E2. lia.
  - congruence.
Qed.

Lemma reads_as_fence ic cl : reads_as ic fence cl <-> cl = fence.
Proof.
  unfold reads_as, fence. split.
  - intros H. cbn in H.
    inversion H as [|p1 c1 ? t1 H1 T1]; subst.
    inversion T1 as [|p2 c2 ? t2 H2 T2]; subst.
    inversion T2 as [|p3 c3 ? t3 H3 T3]; subst.
    inversion T3; subst.
    assert (K : forall c, char_match ic 96%N c = true -> c = 96%N).
    { intros c. unfold char_match. destruct ic.
      - apply canonicalize_backtick.
      - unfold code_eqb. intros E. apply N.eqb_eq in E. congruence. }
    rewrite (K _ H1), (K _ H2), (K _ H3). reflexivity.
  - intros ->. cbn. repeat constructor; destruct ic; reflexivity.
Qed.

Lemma match_literal_Some ic pat : forall s rest,
  match_literal ic pat s = Some rest <->
  exists m, s = m ++ rest /\ reads_as ic pat m.
Proof.
  induction pat as [|p pat IH]; intros s rest; simpl.
  - split.
    + intros H. injection H as ->. exists []. split; [reflexivity|constructor].
    + intros [m [-> H]]. inversion H; subst. reflexivity.
  - destruct s as [|c s].
    + split; [discriminate|].
      intros [m [E H]]. inversion H; subst. discriminate.
    + destruct (char_match ic p c) eqn:E.
      * rewrite IH. split.
        -- intros [m [-> H]]. exists (c :: m). split; [reflexivity|].
           constructor; assumption.
        -- intros [m [E' H]]. inversion H as [|? c' ? m' Hc Hm]; subst.
           injection E' as -> ->. exists m'. split; [reflexivity|assumption].
      * split; [discriminate|].
        intros [m [E' H]]. inversion H as [|? c' ? m' Hc Hm]; subst.
        injection E' as -> ->. congruence.
Qed.

Lemma match_literal_None ic pat s :
  match_literal ic pat s = None ->
  forall m rest, s = m ++ rest -> ~ reads_as ic pat m.
Proof.
  intros H m rest E Hm.
  assert (K : match_literal ic pat s = Some rest).
  { apply match_literal_Some. exists m. split; assumption. }
  congruence.
Qed.

(** Two occurrences of one pattern at the head of one text are the same. *)
Lemma reads_as_same_head ic pat m1 r1 m2 r2 :
  m1 ++ r1 = m2 ++ r2 -> reads_as ic pat m1 -> reads_as ic pat m2 ->
  m1 = m2 /\ r1 = r2.
Proof.
  intros E H1 H2.
  assert (K1 : match_literal ic pat (m1 ++ r1) = Some r1).
  { apply match_literal_Some. exists m1. split; [reflexivity|assumption]. }
  assert (K2 : match_literal ic pat (m1 ++ r1) = Some r2).
  { apply match_literal_Some. exists m2. split; assumption. }
  assert (r1 = r2) by congruence. subst r2.
  split; [|reflexivity]. eapply app_inv_tail. exact E.
Qed.

Lemma match_lazy_group_Some ic close : forall s g,
  match_lazy_group ic close s = Some g ->
  exists cl post,
    s = g ++ cl ++ post /\ reads_as ic close cl
    /\ forall g' cl' post',
         s = g' ++ cl' ++ post' -> reads_as ic close cl' ->
         length g <= length g'.
Proof.
  induction s as [|c s IH]; intros g; simpl.
  - destruct (match_literal ic close []) as [r|] eqn:E; [|discriminate].
    intros H. injection H as <-.
    apply match_literal_Some in E. destruct E as [m [E Hm]].
    exists m, r. repeat split; auto. intros; simpl; lia.
  - destruct (match_literal ic close (c :: s)) as [r|] eqn:E.
    + intros H. injection H as <-.
      apply match_literal_Some in E. destruct E as [m [E Hm]].
      exists m, r. repeat split; auto. intros; simpl; lia.
    + destruct (match_lazy_group ic close s) as [g0|] eqn:E0; [|discriminate].
      simpl. intros H. injection H as <-.
      destruct (IH g0 eq_refl) as [cl [post [Es [Hcl Hmin]]]].
      exists cl, post. repeat split; auto.
      * simpl. rewrite <- Es. reflexivity.
      * intros g' cl' post' E' Hcl'. destruct g' as [|c' g'].
        -- exfalso. simpl in E'.
           exact (match_literal_None _ _ _ E _ _ E' Hcl').
        -- simpl in E'. injection E' as <- E'. simpl.
           specialize (Hmin _ _ _ E' Hcl'). lia.
Qed.

Lemma match_lazy_group_None ic close : forall s,
  match_lazy_group ic close s = None ->
  forall g cl post, s = g ++ cl ++ post -> ~ reads_as ic close cl.
Proof.
  induction s as [|c s IH]; simpl; intros H g cl post E Hcl.
  - destruct (match_literal ic close []) eqn:E0; [discriminate|].
    destruct g; [|discriminate]. simpl in E.
    exact (match_literal_None _ _ _ E0 _ _ E Hcl).
  - destruct (match_literal ic close (c :: s)) eqn:E0; [discriminate|].
    destruct (match_lazy_group ic close s) eqn:E1; [discriminate|].
    destruct g as [|c' g].
    + simpl in E. exact (match_literal_None _ _ _ E0 _ _ E Hcl).
    + simpl in E. injection E as <- E. exact (IH eq_refl _ _ _ E Hcl).
Qed.

(** A block that opens at the head of the text makes the anchored match
    succeed. *)
Lemma match_here_of_block ic open s body post :
  block ic open s [] body post ->
  exists g, match_here ic open fence s = Some g.
Proof.
  intros [op [cl [E [Hop Hcl]]]]. simpl in E. unfold match_here.
  assert (K : match_literal ic open s = Some (body ++ cl ++ post)).
  { apply match_literal_Some. exists op. split; assumption. }
  rewrite K.
  destruct (match_lazy_group ic fence (body ++ cl ++ post)) as [g|] eqn:E1.
  - exists g. reflexivity.
  - exfalso. exact (match_lazy_group_None _ _ _ E1 _ _ _ eq_refl Hcl).
Qed.

Lemma block_cons ic open c s pre body post :
  block ic open (c :: s) (c :: pre) body post <-> block ic open s pre body post.
Proof.
  unfold block. split; intros [op [cl [E H]]]; exists op, cl; split; try tauto.
  - simpl in E. injection E as E. exact E.
  - simpl. rewrite E. reflexivity.
Qed.

Lemma block_head ic open c s c' pre body post :
  block ic open (c :: s) (c' :: pre) body post -> c' = c.
Proof.
  intros [op [cl [E _]]]. simpl in E. injection E as E _. congruence.
Qed.

(** A successful match captures the interior of the first block. *)
Lemma regex_match_Some ic open : forall s g,
  regex_match ic open fence s = Some g ->
  exists pre post, first_block (block ic open s) pre g post.
Proof.
  assert (Here : forall s g, match_here ic open fence s = Some g ->
            exists post, first_block (block ic open s) [] g post).
  { intros s g H. unfold match_here in H.
    destruct (match_literal ic open s) as [rest|] eqn:E; [|discriminate].
    apply match_literal_Some in E. destruct E as [op [Es Hop]].
    apply match_lazy_group_Some in H.
    destruct H as [cl [post [Er [Hcl Hmin]]]].
    exists post. split.
    - exists op, cl. simpl. rewrite Es, Er. auto.
    - intros pre' body' post' [op' [cl' [E' [Hop' Hcl']]]].
      destruct pre' as [|c pre']; [right|left; simpl; lia].
      split; [reflexivity|]. simpl in E'. rewrite Es in E'.
      destruct (reads_as_same_head _ _ _ _ _ _ E' Hop Hop') as [_ Er'].
      exact (Hmin _ _ _ Er' Hcl'). }
  induction s as [|c s IH]; intros g; simpl.
  - destruct (match_here ic open fence []) as [g0|] eqn:E; [|discriminate].
    intros H. injection H as <-.
    destruct (Here _ _ E) as [post Hf]. exists [], post. exact Hf.
  - destruct (match_here ic open fence (c :: s)) as [g0|] eqn:E.
    + intros H. injection H as <-.
      destruct (Here _ _ E) as [post Hf]. exists [], post. exact Hf.
    + intros H. destruct (IH _ H) as [pre [post [Hb Hmin]]].
      exists (c :: pre), post. split.
      * apply block_cons. exact Hb.
      * intros pre' body' post' Hb'. destruct pre' as [|c' pre'].
        -- exfalso. destruct (match_here_of_block _ _ _ _ _ Hb') as [g1 Hg1]. congruence.
        -- pose proof (block_head _ _ _ _ _ _ _ _ Hb') as ->. apply block_cons in Hb'.
           specialize (Hmin _ _ _ Hb'). simpl. lia.
Qed.

(** A failed match means the text has no block at all. *)
Lemma regex_match_None ic open : forall s,
  regex_match ic open fence s = None ->
  forall pre body post, ~ block ic open s pre body post.
Proof.
  induction s as [|c s IH]; simpl; intros H pre body post Hb.
  - destruct (match_here ic open fence []) eqn:E; [discriminate|].
    destruct pre as [|c pre].
    + destruct (match_here_of_block _ _ _ _ _ Hb) as [g Hg]. congruence.
    + destruct Hb as [op [cl [Hb _]]]. discriminate.
  - destruct (match_here ic open fence (c :: s)) eqn:E; [discriminate|].
    destruct pre as [|c' pre].
    + destruct (match_here_of_block _ _ _ _ _ Hb) as [g Hg]. congruence.
    + pose proof (block_head _ _ _ _ _ _ _ _ Hb) as ->. apply block_cons in Hb.
      exact (IH H _ _ _ Hb).
Qed.

Lemma app_same_length (A : Type) (a b c d : list A) :
  a ++ b = c ++ d -> length a = length c -> a = c /\ b = d.
Proof.
  revert c. induction a as [|x a IH]; intros [|y c] E L; simpl in *;
    try discriminate.
  - auto.
  - injection E as -> E. injection L as L.
    destruct (IH _ E L) as [-> ->]. auto.
Qed.

(** The first block of a text is one block: its interior is determined. *)
Lemma first_block_unique ic open s pre body post pre' body' post' :
  first_block (block ic open s) pre body post ->
  first_block (block ic open s) pre' body' post' ->
  pre = pre' /\ body = body' /\ post = post'.
Proof.
  intros [Hb Hmin] [Hb' Hmin'].
  pose proof (Hmin _ _ _ Hb') as L. pose proof (Hmin' _ _ _ Hb) as L'.
  assert (Lp : length pre = length pre') by lia.
  assert (Lb : length body = length body') by lia.
  destruct Hb as [op [cl [E [Hop Hcl]]]].
  destruct Hb' as [op' [cl' [E' [Hop' Hcl']]]].
  rewrite E in E'.
  destruct (app_same_length _ _ _ _ _ E' Lp) as [-> E1].
  destruct (reads_as_same_head _ _ _ _ _ _ E1 Hop Hop') as [-> E2].
  destruct (app_same_length _ _ _ _ _ E2 Lb) as [-> E3].
  destruct (reads_as_same_head _ _ _ _ _ _ E3 Hcl Hcl') as [-> ->].
  auto.
Qed.

(** The match, stated from the side of the text: when the text has a block
    it has a first one, and the capture is the interior of any first
    block. *)
Lemma regex_match_block ic open s pre body post :
  block ic open s pre body post ->
  (exists pre0 body0 post0, first_block (block ic open s) pre0 body0 post0)
  /\ (forall pre0 body0 post0,
        first_block (block ic open s) pre0 body0 post0 ->
        regex_match ic open fence s = Some body0).
Proof.
  intros Hb.
  destruct (regex_match ic open fence s) as [g|] eqn:E.
  - destruct (regex_match_Some _ _ _ _ E) as [pre1 [post1 Hf]]. split.
    + exists pre1, g, post1. exact Hf.
    + intros pre0 body0 post0 Hf0.
      destruct (first_block_unique _ _ _ _ _ _ _ _ _ Hf Hf0) as [_ [-> _]]. reflexivity.
  - exfalso. exact (regex_match_None _ _ _ E _ _ _ Hb).
Qed.

Lemma block_nonempty ic open pre body post : ~ block ic open [] pre body post.
Proof.
  intros [op [cl [E [_ Hcl]]]]. apply reads_as_fence in Hcl. subst cl.
  destruct pre; [|discriminate]. destruct op; [|discriminate].
  destruct body; discriminate.
Qed.

(** A block labeled as JSON is also a generic block: its label belongs to
    the generic interior. *)
Lemma json_block_generic text pre body post :
  json_block text pre body post ->
  exists body', generic_block text pre body' post.
Proof.
  intros [op [cl [E [Hop Hcl]]]]. unfold reads_as, json_fence in Hop.
  cbn in Hop.
  inversion Hop as [|p1 c1 ? t1 H1 T1]; subst.
  inversion T1 as [|p2 c2 ? t2 H2 T2]; subst.
  inversion T2 as [|p3 c3 ? t3 H3 T3]; subst.
  apply canonicalize_backtick in H1, H2, H3. subst.
  exists (t3 ++ body), [96; 96; 96]%N, cl. split; [|split].
  - simpl. rewrite <- app_assoc. reflexivity.
  - apply reads_as_fence. reflexivity.
  - apply reads_as_fence. apply reads_as_fence in Hcl. exact Hcl.
Qed.

Lemma indexOf_from_absent c : forall s i,
  ~ In c s -> indexOf_from c s i = (-1)%Z.
Proof.
  induction s as [|x s IH]; intros i H; simpl; [reflexivity|].
  unfold code_eqb. destruct (N.eqb_spec x c) as [->|_].
  - exfalso. apply H. left. reflexivity.
  - apply IH. intros K. apply H. right. exact K.
Qed.

Lemma indexOf_from_first c rest : forall pre i,
  ~ In c pre ->
  indexOf_from c (pre ++ c :: rest) i = (i + Z.of_nat (length pre))%Z.
Proof.
  induction pre as [|x pre IH]; intros i H; simpl indexOf_from.
  - unfold code_eqb. rewrite N.eqb_refl. simpl. lia.
  - unfold code_eqb. destruct (N.eqb_spec x c) as [->|_].
    + exfalso. apply H. left. reflexivity.
    + rewrite IH.
      * simpl length. lia.
      * intros K. apply H. right. exact K.
Qed.

(** [indexOf] answers [-1] exactly when the unit is absent, and otherwise
    the length of what precedes its first occurrence. *)
Lemma indexOf_cases c s :
  (~ In c s /\ indexOf s c = (-1)%Z)
  \/ (exists pre rest,
        s = pre ++ c :: rest /\ ~ In c pre
        /\ indexOf s c = Z.of_nat (length pre)).
Proof.
  unfold indexOf. destruct (in_dec N.eq_dec c s) as [Hin|Hout].
  - right. induction s as [|x s IH]; [destruct Hin|].
    destruct (N.eq_dec x c) as [->|Hne].
    + exists [], s. repeat split; auto. simpl. unfold code_eqb.
      rewrite N.eqb_refl. reflexivity.
    + destruct Hin as [Hx|Hin]; [congruence|].
      destruct (IH Hin) as [pre [rest [E [Hp _]]]]. subst s.
      exists (x :: pre), rest. split; [reflexivity|]. split.
      * intros [K|K]; [congruence|exact (Hp K)].
      * apply (indexOf_from_first c rest (x :: pre) 0%Z).
        intros [K|K]; [congruence|exact (Hp K)].
  - left. split; [exact Hout|]. apply indexOf_from_absent. exact Hout.
Qed.

Lemma lastIndexOf_from_absent c : forall s i found,
  ~ In c s -> lastIndexOf_from c s i found = found.
Proof.
  induction s as [|x s IH]; intros i found H; simpl; [reflexivity|].
  unfold code_eqb. destruct (N.eqb_spec x c) as [->|_].
  - exfalso. apply H. left. reflexivity.
  - apply IH. intros K. apply H. right. exact K.
Qed.

Lemma lastIndexOf_from_last c rest : forall pre i found,
  ~ In c rest ->
  lastIndexOf_from c (pre ++ c :: rest) i found
  = (i + Z.of_nat (length pre))%Z.
Proof.
  induction pre as [|x pre IH]; intros i found H; simpl lastIndexOf_from.
  - unfold code_eqb. rewrite N.eqb_refl.
    rewrite lastIndexOf_from_absent by exact H. simpl. lia.
  - rewrite IH by exact H. simpl length. lia.
Qed.

(** [lastIndexOf] answers [-1] exactly when the unit is absent, and
    otherwise the length of what precedes its last occurrence. *)
Lemma lastIndexOf_cases c s :
  (~ In c s /\ lastIndexOf s c = (-1)%Z)
  \/ (exists pre rest,
        s = pre ++ c :: rest /\ ~ In c rest
        /\ lastIndexOf s c = Z.of_nat (length pre)).
Proof.
  unfold lastIndexOf. destruct (in_dec N.eq_dec c s) as [Hin|Hout].
  - right. induction s as [|x s IH]; [destruct Hin|].
    destruct (in_dec N.eq_dec c s) as [Hs|Hs].
    + destruct (IH Hs) as [pre [rest [E [Hr _]]]]. subst s.
      exists (x :: pre), rest. split; [reflexivity|]. split; [exact Hr|].
      apply (lastIndexOf_from_last c rest (x :: pre) 0%Z). exact Hr.
    + destruct Hin as [->|Hin]; [|contradiction].
      exists [], s. split; [reflexivity|]. split; [exact Hs|].
      apply (lastIndexOf_from_last c s [] 0%Z). exact Hs.
  - left. split; [exact Hout|]. apply lastIndexOf_from_absent. exact Hout.
Qed.

(** Slicing out a middle part by its two indices. *)
Lemma slice_middle (pre m post : jsstring) :
  slice (pre ++ m ++ post) (Z.of_nat (length pre))
        (Z.of_nat (length pre + length m))
  = m.
Proof.
  unfold slice. rewrite !length_app.
  destruct (Z.ltb_spec (Z.of_nat (length pre)) 0); [lia|].
  destruct (Z.ltb_spec (Z.of_nat (length pre + length m)) 0); [lia|].
  rewrite !Z.min_l by lia. rewrite Nat2Z.id.
  replace (Z.to_nat (Z.of_nat (length pre + length m) - Z.of_nat (length pre)))
    with (length m) by lia.
  rewrite skipn_app, skipn_all, Nat.sub_diag. simpl.
  rewrite firstn_app, firstn_all, Nat.sub_diag. simpl. apply app_nil_r.
Qed.

(** Slicing from the first brace to one past the last. *)
Lemma slice_span (pre mid post : jsstring) (a b : code_unit) :
  slice (pre ++ a :: mid ++ b :: post) (Z.of_nat (length pre))
        (Z.of_nat (length pre + S (length mid)) + 1)
  = a :: mid ++ [b].
Proof.
  replace (pre ++ a :: mid ++ b :: post)
    with (pre ++ (a :: mid ++ [b]) ++ post).
  2:{ simpl. rewrite <- app_assoc. reflexivity. }
  replace (Z.of_nat (length pre + S (length mid)) + 1)%Z
    with (Z.of_nat (length pre + length (a :: mid ++ [b]))).
  2:{ simpl. rewrite length_app. simpl. lia. }
  apply slice_middle.
Qed.

(** The body of [extractJson] on a non-empty text. *)
Lemma extractJson_unfold text :
  text <> [] ->
  extractJson (Some text) =
  match regex_match true json_fence fence text with
  | Some fenced1 => Some (trim fenced1)
  | None =>
      match regex_match false fence fence text with
      | Some genericFenced1 => Some (trim genericFenced1)
      | None =>
          if negb (indexOf text open_brace =? -1)%Z
             && negb (lastIndexOf text close_brace =? -1)%Z
             && (lastIndexOf text close_brace >? indexOf text open_brace)%Z
          then Some (trim (slice text (indexOf text open_brace)
                             (lastIndexOf text close_brace + 1)%Z))
          else None
      end
  end.
Proof.
  destruct text; [congruence|]. reflexivity.
Qed.

Lemma block_text_nonempty ic open text pre body post :
  block ic open text pre body post -> text <> [].
Proof.
  intros Hb ->. exact (block_nonempty _ _ _ _ _ Hb).
Qed.

(* ================================================================== *)
(** * The JSON extractor *)
(* ================================================================== *)

(** C1. Whenever the text contains a fenced block labeled as JSON, in any
    letter case, [extractJson] returns the trimmed interior of the first
    such block ([first_block_unique]: there is only one), whatever else the
    text holds: generic blocks, braces, before or after. *)
Theorem extractJson_json_fence (text pre body post : jsstring) :
  json_block text pre body post ->
  exists pre0 body0 post0,
    first_block (json_block text) pre0 body0 post0
    /\ extractJson (Some text) = Some (trim body0).
Proof.
  intros Hb.
  destruct (regex_match_block _ _ _ _ _ _ Hb) as [[pre0 [body0 [post0 Hf]]] Hm].
  exists pre0, body0, post0. split; [exact Hf|].
  rewrite extractJson_unfold by exact (block_text_nonempty _ _ _ _ _ _ Hb).
  unfold json_block in Hm. rewrite (Hm _ _ _ Hf). reflexivity.
Qed.

Lemma extractJson_json_fence_witness :
  exists pre0 body0 post0,
    first_block (json_block sample_labelled) pre0 body0 post0
    /\ extractJson (Some sample_labelled) = Some (trim body0).
Proof.
  apply (extractJson_json_fence sample_labelled
           (str "} ``` a ``` ") (LF ++ str "{x}" ++ LF)
           (str " { ```json b ```")).
  exists (str "```JSON"), fence.
  split; [reflexivity|]. split; repeat constructor.
Defined.

(** C5. Whenever the text contains no block labeled as JSON but contains a
    generic fenced block, [extractJson] returns the trimmed interior of the
    first generic block. *)
Theorem extractJson_generic_fence (text pre body post : jsstring) :
  (forall p b q, ~ json_block text p b q) ->
  generic_block text pre body post ->
  exists pre0 body0 post0,
    first_block (generic_block text) pre0 body0 post0
    /\ extractJson (Some text) = Some (trim body0).
Proof.
  intros Hno Hb.
  destruct (regex_match_block _ _ _ _ _ _ Hb) as [[pre0 [body0 [post0 Hf]]] Hm].
  exists pre0, body0, post0. split; [exact Hf|].
  rewrite extractJson_unfold by exact (block_text_nonempty _ _ _ _ _ _ Hb).
  destruct (regex_match true json_fence fence text) as [g|] eqn:E.
  - exfalso. destruct (regex_match_Some _ _ _ _ E) as [p [q [Hj _]]].
    exact (Hno _ _ _ Hj).
  - unfold generic_block in Hm. rewrite (Hm _ _ _ Hf). reflexivity.
Qed.

Lemma extractJson_generic_fence_witness :
  exists pre0 body0 post0,
    first_block (generic_block sample_unclosed_label) pre0 body0 post0
    /\ extractJson (Some sample_unclosed_label) = Some (trim body0).
Proof.
  apply (extractJson_generic_fence sample_unclosed_label
           [] (str " a ") (str "json b")).
  - apply regex_match_None. vm_compute. reflexivity.
  - exists fence, fence. split; [reflexivity|]. split; repeat constructor.
Defined.

(** C4. On an input with no fenced block: when the first [{] comes strictly
    before the last [}], [extractJson] returns the trimmed text from the one
    to the other, both included; when there is no such pair, an empty or
    absent input included, it returns nothing. *)
Theorem extractJson_braces (input : option jsstring) :
  (forall text p b q, input = Some text -> ~ generic_block text p b q) ->
  (forall text pre mid post,
     input = Some text -> brace_span text pre mid post ->
     extractJson input = Some (trim (open_brace :: mid ++ [close_brace])))
  /\ ((forall text pre mid post,
         input = Some text -> ~ brace_span text pre mid post) ->
      extractJson input = None).
Proof.
  intros Hno. destruct input as [text|]; [|split; intros; [discriminate|reflexivity]].
  assert (Hgen : regex_match false fence fence text = None).
  { destruct (regex_match false fence fence text) as [g|] eqn:E; [|reflexivity].
    exfalso. destruct (regex_match_Some _ _ _ _ E) as [p [q [Hb _]]].
    exact (Hno _ _ _ _ eq_refl Hb). }
  assert (Hjson : regex_match true json_fence fence text = None).
  { destruct (regex_match true json_fence fence text) as [g|] eqn:E;
      [|reflexivity].
    exfalso. destruct (regex_match_Some _ _ _ _ E) as [p [q [Hb _]]].
    destruct (json_block_generic _ _ _ _ Hb) as [b' Hb'].
    exact (Hno _ _ _ _ eq_refl Hb'). }
  split.
  - intros text' pre mid post E [Et [Hpre Hpost]]. injection E as <-.
    rewrite extractJson_unfold by (rewrite Et; destruct pre; discriminate).
    rewrite Hjson, Hgen.
    assert (Hs : indexOf text open_brace = Z.of_nat (length pre)).
    { rewrite Et. unfold indexOf. rewrite indexOf_from_first by exact Hpre.
      lia. }
    assert (He : lastIndexOf text close_brace
                 = Z.of_nat (length pre + S (length mid))).
    { rewrite Et. unfold lastIndexOf.
      change (pre ++ open_brace :: mid ++ close_brace :: post)
        with (pre ++ (open_brace :: mid) ++ close_brace :: post).
      rewrite app_assoc, lastIndexOf_from_last by exact Hpost.
      rewrite length_app. simpl. lia. }
    rewrite Hs, He.
    destruct (Z.eqb_spec (Z.of_nat (length pre)) (-1)); [lia|].
    destruct (Z.eqb_spec (Z.of_nat (length pre + S (length mid))) (-1)); [lia|].
    destruct (Z.gtb_spec (Z.of_nat (length pre + S (length mid)))
                (Z.of_nat (length pre))); [|lia].
    simpl. rewrite Et, slice_span. reflexivity.
  - intros Hnone. destruct text as [|c0 text0]; [reflexivity|].
    set (text := c0 :: text0) in *.
    rewrite extractJson_unfold by discriminate.
    rewrite Hjson, Hgen.
    destruct (indexOf_cases open_brace text)
      as [[_ ->]|[pre1 [rest1 [E1 [H1 ->]]]]]; [reflexivity|].
    destruct (lastIndexOf_cases close_brace text)
      as [[_ ->]|[pre2 [rest2 [E2 [H2 ->]]]]];
      [rewrite andb_false_r; reflexivity|].
    destruct (Z.gtb_spec (Z.of_nat (length pre2)) (Z.of_nat (length pre1)))
      as [Hlt|_]; [|rewrite andb_false_r; reflexivity].
    exfalso.
    assert (E : pre1 ++ open_brace :: rest1 = pre2 ++ close_brace :: rest2)
      by congruence.
    apply app_eq_app in E. destruct E as [l [[Ea Eb]|[Ea Eb]]].
    + assert (l = []).
      { apply (f_equal (@length _)) in Ea. rewrite length_app in Ea.
        destruct l; [reflexivity|simpl in Ea; lia]. }
      subst l. simpl in Eb. discriminate.
    + destruct l as [|x mid].
      * simpl in Eb. discriminate.
      * simpl in Eb. injection Eb as Ex Er. subst x rest1.
        apply (Hnone text pre1 mid rest2 eq_refl). split; [|split; assumption].
        rewrite E2, Ea. rewrite <- app_assoc. reflexivity.
Qed.

Lemma extractJson_braces_witness :
  extractJson (Some sample_braces)
  = Some (trim (open_brace :: str "b} c " ++ [close_brace]))
  /\ extractJson (Some (str "}{")) = None
  /\ extractJson None = None.
Proof.
  split; [|split].
  - apply (extractJson_braces (Some sample_braces)) with
      (text := sample_braces) (pre := str "a ") (post := str " d").
    + intros text p b q E. injection E as <-.
      apply regex_match_None. vm_compute. reflexivity.
    + reflexivity.
    + split; [reflexivity|]. split; vm_compute; intuition discriminate.
  - apply (extractJson_braces (Some (str "}{"))).
    + intros text p b q E. injection E as <-.
      apply regex_match_None. vm_compute. reflexivity.
    + intros text pre mid post E [Et _]. injection E as <-.
      destruct pre as [|a [|b [|c pre]]]; try discriminate Et;
        cbn in Et; injection Et; intros; destruct mid; discriminate.
  - apply (extractJson_braces None); intros; discriminate.
Defined.

(* ================================================================== *)
(** * The medicine-data formatter *)
(* ================================================================== *)

(** C6. On the empty object the formatter returns the fallback name, a blank
    line, and the note section with the fixed disclaimer. *)
Theorem formatMedicineData_empty_object (R : Runtime) :
  formatMedicineData (JObj []) =
  Ok (str "Unknown medicine" ++ LF ++ LF ++ str "Note:" ++ LF
      ++ str "This information is for educational purposes only. Always consult a qualified healthcare professional.").
Proof.
  reflexivity.
Qed.

(** C2 (fails on the code). A [sideEffects] entry that is [null] makes the
    formatter throw: line 68 reads [group.severity] with no guard. The loop
    over [uses] has the guard ([u && typeof u === 'object'], line 51), and
    the same entry there is skipped. *)
Theorem formatMedicineData_null_group (R : Runtime) :
  formatMedicineData (JObj [(str "sideEffects", JArr [JNull])])
  = Throw TypeError
  /\ formatMedicineData (JObj [(str "uses", JArr [JNull])])
     = Ok (str "Unknown medicine" ++ LF ++ LF ++ str "Uses:" ++ LF ++ LF
           ++ str "Note:" ++ LF ++ default_note).
Proof.
  split; reflexivity.
Qed.

(** C7. The round trip of the specification: the extractor finds the JSON
    text inside the labeled fence, it parses to an object with the one
    property [name], and the formatter renders the name, a blank line and
    the note section with the fixed disclaimer. *)
Theorem aspirin_round_trip (R : Runtime) :
  extractJson (Some aspirin_reply) = Some aspirin_json
  /\ JSON_parse aspirin_json = Ok (JObj [(str "name", JStr (str "Aspirin"))])
  /\ formatMedicineData (JObj [(str "name", JStr (str "Aspirin"))])
     = Ok (str "Aspirin" ++ LF ++ LF ++ str "Note:" ++ LF ++ default_note).
Proof.
  split; [|split]; reflexivity.
Qed.

(* ================================================================== *)
(** * The handler *)
(* ================================================================== *)

Section HandlerFacts.

Context {R : Runtime}.

Implicit Types (up : upstream) (req_body : option (value number)).

(** A query that is not truthy ends the request at line 95, before any
    effect. *)
Lemma handler_rejects up req_body query :
  get (body_or_empty req_body) (str "query") = Ok query ->
  truthy query = false ->
  Eff.run (handler up req_body) = (Ok bad_request, []).
Proof.
  intros Hq Ht. unfold Eff.run, handler, Eff.bind, Eff.lift.
  rewrite Hq, Ht. reflexivity.
Qed.

(** The run of the handler once the completion [rawText] is there. *)
Lemma handler_returns up req_body rawText :
  upstream_returns up req_body rawText ->
  exists q,
    Eff.run (handler up req_body) =
    Eff.try_catch
      (Eff.bind (parse_and_format rawText)
         (fun locals => Eff.ret (answer (snd locals) (fst locals))))
      (fun err =>
         Eff.bind (Eff.emit (ConsoleError (str "Gemini Error:") err))
           (fun _ => Eff.ret upstream_failed))
      [GetGenerativeModel model_name; GenerateContent (prompt_for q)].
Proof.
  intros [query [q [Hq [Ht [Hm [Hs Hg]]]]]]. exists q.
  unfold Eff.run, handler, Eff.bind, Eff.lift, Eff.try_catch, Eff.emit.
  rewrite Hq, Ht. simpl negb. cbv iota.
  rewrite Hm. unfold to_string_or. rewrite Ht, Hs, Hg. reflexivity.
Qed.

End HandlerFacts.

(** C8. A request whose body carries no [query] is answered 400 with
    [{ error: 'query is required' }], and the trace of the run is empty: the
    upstream was not called. The body may be absent altogether. *)
Theorem handler_missing_query (R : Runtime) (up : upstream)
  (req_body : option (value number)) :
  get (body_or_empty req_body) (str "query") = Ok None ->
  Eff.run (handler up req_body)
  = (Ok {| status := 400;
           body := JObj [(str "error", JStr (str "query is required"))] |},
     []).
Proof.
  intros Hq. apply (handler_rejects up req_body None Hq). reflexivity.
Qed.

Lemma handler_missing_query_witness :
  Eff.run (handler (R := literal_runtime)
             (upstream_answering aspirin_reply) None)
  = (Ok {| status := 400;
           body := JObj [(str "error", JStr (str "query is required"))] |},
     []).
Proof.
  apply (handler_missing_query literal_runtime). reflexivity.
Defined.

(** C10. A request whose [query] is present but falsy (the empty string, a
    zero Number, [false], [null]) is answered exactly as one without a
    query: 400, the same body, and no call to the upstream. *)
Theorem handler_falsy_query (R : Runtime) (up : upstream)
  (req_body : option (value number)) (q : value number) :
  get (body_or_empty req_body) (str "query") = Ok (Some q) ->
  falsy_query q ->
  Eff.run (handler up req_body)
  = (Ok {| status := 400;
           body := JObj [(str "error", JStr (str "query is required"))] |},
     []).
Proof.
  intros Hq Hf. apply (handler_rejects up req_body (Some q) Hq).
  destruct Hf as [->|[->|[->|[n [-> Hn]]]]]; try reflexivity. exact Hn.
Qed.

Lemma handler_falsy_query_witness :
  Eff.run (handler (R := literal_runtime) (upstream_answering aspirin_reply)
             (Some (JObj [(str "query", JStr [])])))
  = (Ok {| status := 400;
           body := JObj [(str "error", JStr (str "query is required"))] |},
     []).
Proof.
  apply (handler_falsy_query literal_runtime _ _ (JStr [])).
  - reflexivity.
  - left. reflexivity.
Defined.

(** C9. When an upstream call throws or rejects with [err], the answer is
    500 with the fixed body [{ error: 'Gemini AI request failed' }], which
    does not mention [err]; [err] goes to [console.error], the last event of
    the run, after the upstream calls made so far. *)
Theorem handler_upstream_failure (R : Runtime) (up : upstream)
  (req_body : option (value number)) (err : exn) (calls : list event) :
  upstream_throws up req_body err calls ->
  Eff.run (handler up req_body)
  = (Ok {| status := 500;
           body := JObj [(str "error",
                          JStr (str "Gemini AI request failed"))] |},
     calls ++ [ConsoleError (str "Gemini Error:") err]).
Proof.
  intros [query [Hq [Ht Hcase]]].
  unfold Eff.run, handler, Eff.bind, Eff.lift, Eff.try_catch, Eff.emit.
  rewrite Hq, Ht. simpl negb. cbv iota.
  destruct Hcase as [[Hm ->]|[q [Hm [Hs [Hg ->]]]]].
  - rewrite Hm. reflexivity.
  - rewrite Hm. unfold to_string_or. rewrite Ht, Hs, Hg. reflexivity.
Qed.

Lemma handler_upstream_failure_witness :
  Eff.run (handler (R := literal_runtime)
             (upstream_rejecting (UpstreamError (str "429 quota exceeded")))
             aspirin_request)
  = (Ok {| status := 500;
           body := JObj [(str "error",
                          JStr (str "Gemini AI request failed"))] |},
     [GetGenerativeModel model_name;
      GenerateContent (prompt_for (str "aspirin"));
      ConsoleError (str "Gemini Error:")
        (UpstreamError (str "429 quota exceeded"))]).
Proof.
  apply (handler_upstream_failure literal_runtime _ _ _
           [GetGenerativeModel model_name;
            GenerateContent (prompt_for (str "aspirin"))]).
  exists (JStr (str "aspirin")). split; [reflexivity|]. split; [reflexivity|].
  right. exists (str "aspirin"). repeat split; reflexivity.
Defined.

(** C3 as the specification states it fails: the upstream text [null] is
    valid JSON and parses, to [null]; the formatter throws on it reading
    [data.name], so there is no formatter output for the response text to
    equal; the [catch] of line 132 answers with the upstream text. *)
Lemma handler_parse_success_counterexample :
  upstream_returns (R := literal_runtime)
    (upstream_answering (str "null")) aspirin_request (str "null")
  /\ JSON_parse (R := literal_runtime) (json_candidate (str "null")) = Ok JNull
  /\ formatMedicineData (R := literal_runtime) JNull = Throw TypeError
  /\ fst (Eff.run (handler (R := literal_runtime)
                     (upstream_answering (str "null")) aspirin_request))
     = Ok (answer (str "null") (Some JNull))
  /\ ~ (exists text,
          formatMedicineData (R := literal_runtime) JNull = Ok text
          /\ fst (Eff.run (handler (R := literal_runtime)
                             (upstream_answering (str "null"))
                             aspirin_request))
             = Ok (answer text (Some JNull))).
Proof.
  split; [|split; [|split; [|split]]].
  - exists (JStr (str "aspirin")), (str "aspirin"). repeat split; reflexivity.
  - reflexivity.
  - reflexivity.
  - reflexivity.
  - intros [text [Hf _]]. discriminate Hf.
Qed.

(** C3, amended. Once the completion is there: when the candidate text
    parses and the formatter returns on the parsed value, the answer is 200
    with the formatter's output as [text] and the parsed value as [raw];
    when the candidate text does not parse, the answer is 200 with the
    upstream text, unchanged, as [text] and [null] as [raw], after a
    warning on the console and no error. *)
Theorem handler_parse_outcomes (R : Runtime) (up : upstream)
  (req_body : option (value number)) (rawText : jsstring) :
  upstream_returns up req_body rawText ->
  (forall parsed text,
     JSON_parse (json_candidate rawText) = Ok parsed ->
     formatMedicineData parsed = Ok text ->
     fst (Eff.run (handler up req_body))
     = Ok {| status := 200;
             body := JObj [(str "text", JStr text); (str "raw", parsed)] |})
  /\ (forall e,
        JSON_parse (json_candidate rawText) = Throw e ->
        fst (Eff.run (handler up req_body))
        = Ok {| status := 200;
                body := JObj [(str "text", JStr rawText);
                              (str "raw", JNull)] |}
        /\ exists q,
             snd (Eff.run (handler up req_body))
             = [GetGenerativeModel model_name;
                GenerateContent (prompt_for q);
                ConsoleWarn warning]).
Proof.
  intros Hup. destruct (handler_returns up req_body rawText Hup) as [q Hrun].
  rewrite Hrun. unfold Eff.try_catch, Eff.bind, parse_and_format. split.
  - intros parsed text Hp Hf. rewrite Hp, Hf. reflexivity.
  - intros e Hp. rewrite Hp. split; [reflexivity|]. exists q. reflexivity.
Qed.

Lemma handler_parse_outcomes_witness :
  fst (Eff.run (handler (R := literal_runtime)
                  (upstream_answering aspirin_reply) aspirin_request))
  = Ok {| status := 200;
          body := JObj [(str "text",
                         JStr (str "Aspirin" ++ LF ++ LF ++ str "Note:" ++ LF
                               ++ default_note));
                        (str "raw",
                         JObj [(str "name", JStr (str "Aspirin"))])] |}.
Proof.
  apply (handler_parse_outcomes literal_runtime
           (upstream_answering aspirin_reply) aspirin_request aspirin_reply).
  - exists (JStr (str "aspirin")), (str "aspirin"). repeat split; reflexivity.
  - reflexivity.
  - reflexivity.
Defined.

(* ================================================================== *)
(** * [JSON.parse]: the fuel never runs out *)
(* ================================================================== *)

Section ParseFuel.

Context {R : Runtime}.

Local Abbreviation jsvalue := (value number).

Lemma skip_ws_length s : length (skip_ws s) <= length s.
Proof.
  induction s as [|c s IH]; simpl; [lia|].
  destruct (is_json_ws c); simpl; lia.
Qed.

Lemma parse_string_body_shorter : forall n s t r,
  length s <= n -> parse_string_body s = Some (t, r) -> length r < length s.
Proof.
  induction n as [|n IH]; intros s t r Hn; destruct s as [|c s];
    simpl in *; try discriminate; try lia.
  destruct (c =? 34)%N.
  { intros H. injection H as _ <-. lia. }
  destruct (c =? 92)%N.
  { destruct s as [|e s]; [discriminate|].
    destruct (e =? 117)%N.
    - destruct s as [|h1 [|h2 [|h3 [|h4 s3]]]]; try discriminate.
      destruct (hex4 h1 h2 h3 h4); [|discriminate].
      destruct (parse_string_body s3) as [[t' r']|] eqn:E; [|discriminate].
      intros H. injection H as _ <-.
      assert (length r' < length s3) by (apply (IH s3 t' r'); simpl in *; [lia|exact E]).
      simpl. lia.
    - destruct (simple_escape e); [|discriminate].
      destruct (parse_string_body s) as [[t' r']|] eqn:E; [|discriminate].
      intros H. injection H as _ <-.
      assert (length r' < length s) by (apply (IH s t' r'); simpl in *; [lia|exact E]).
      simpl. lia. }
  destruct (c <? 32)%N; [discriminate|].
  destruct (parse_string_body s) as [[t' r']|] eqn:E; [|discriminate].
  intros H. injection H as _ <-.
  assert (length r' < length s) by (apply (IH s t' r'); [lia|exact E]).
  lia.
Qed.

Lemma span_digits_length s : length (snd (span_digits s)) <= length s.
Proof.
  induction s as [|c s IH]; simpl; [lia|].
  destruct (is_digit c); [|simpl; lia].
  destruct (span_digits s) as [d rest]. simpl in *. lia.
Qed.

Lemma scan_int_shorter s i r :
  scan_int s = Some (i, r) -> length r < length s.
Proof.
  destruct s as [|c s]; simpl; [discriminate|].
  pose proof (span_digits_length s) as L.
  destruct (c =? 48)%N.
  - intros H. injection H as _ <-. lia.
  - destruct (is_digit c); [|discriminate].
    destruct (span_digits s) as [d rest]. simpl in L.
    intros H. injection H as _ <-. lia.
Qed.

Lemma scan_frac_length s f r :
  scan_frac s = Some (f, r) -> length r <= length s.
Proof.
  destruct s as [|c s]; simpl.
  - intros H. injection H as _ <-. simpl. lia.
  - pose proof (span_digits_length s) as L.
    destruct (c =? 46)%N.
    + destruct (span_digits s) as [[|d ds] rest]; [discriminate|].
      simpl in L. intros H. injection H as _ <-. lia.
    + intros H. injection H as _ <-. simpl. lia.
Qed.

Lemma scan_exp_length s e r :
  scan_exp s = Some (e, r) -> length r <= length s.
Proof.
  destruct s as [|c s]; simpl.
  - intros H. injection H as _ <-. simpl. lia.
  - destruct ((c =? 101) || (c =? 69))%N.
    + destruct s as [|g t].
      * simpl. discriminate.
      * pose proof (span_digits_length t) as Lt.
        pose proof (span_digits_length (g :: t)) as Lg.
        destruct ((g =? 43) || (g =? 45))%N.
        -- destruct (span_digits t) as [[|d ds] rest]; [discriminate|].
           simpl in Lt. intros H. injection H as _ <-. simpl. lia.
        -- destruct (span_digits (g :: t)) as [[|d ds] rest]; [discriminate|].
           simpl in Lg. intros H. injection H as _ <-. simpl in *. lia.
    + intros H. injection H as _ <-. simpl. lia.
Qed.

Lemma scan_number_shorter s lit r :
  scan_number s = Some (lit, r) -> length r < length s.
Proof.
  unfold scan_number. destruct s as [|c t]; [simpl; discriminate|].
  destruct (c =? 45)%N; cbv beta iota;
    match goal with
    | |- context [scan_int ?x] =>
        destruct (scan_int x) as [[i s2]|] eqn:Ei; [|discriminate]
    end;
    apply scan_int_shorter in Ei;
    destruct (scan_frac s2) as [[f s3]|] eqn:Ef; try discriminate;
    apply scan_frac_length in Ef;
    destruct (scan_exp s3) as [[e s4]|] eqn:Ee; try discriminate;
    apply scan_exp_length in Ee;
    intros H; injection H as _ <-; simpl in *; lia.
Qed.

Lemma match_literal_shorter pat s r :
  pat <> [] -> match_literal false pat s = Some r -> length r < length s.
Proof.
  intros Hp H. apply match_literal_Some in H. destruct H as [m [-> Hm]].
  apply reads_as_length in Hm. rewrite length_app.
  destruct pat; [congruence|]. simpl in Hm. lia.
Qed.

Lemma parse_value_step_consumes
  (pe : jsstring -> list jsvalue -> option (jsvalue * jsstring))
  (pm : jsstring -> list (jsstring * jsvalue) -> option (jsvalue * jsstring)) :
  (forall acc, consumes (fun s => pe s acc)) ->
  (forall acc, consumes (fun s => pm s acc)) ->
  consumes (parse_value_step pe pm).
Proof.
  intros He Hm s v r. unfold parse_value_step.
  pose proof (skip_ws_length s) as L.
  destruct (skip_ws s) as [|c rest]; [discriminate|]. simpl in L.
  pose proof (skip_ws_length rest) as L'.
  destruct (c =? 123)%N.
  { destruct (skip_ws rest) as [|d rest']; [discriminate|]. simpl in L'.
    destruct (d =? 125)%N.
    - intros H. injection H as _ <-. lia.
    - intros H. apply (Hm []) in H. lia. }
  destruct (c =? 91)%N.
  { destruct (skip_ws rest) as [|d rest']; [discriminate|]. simpl in L'.
    destruct (d =? 93)%N.
    - intros H. injection H as _ <-. lia.
    - intros H. apply (He []) in H. lia. }
  destruct (c =? 34)%N.
  { destruct (parse_string_body rest) as [[t rest']|] eqn:E; [|discriminate].
    apply (parse_string_body_shorter _ _ _ _ (le_n _)) in E.
    intros H. injection H as _ <-. lia. }
  destruct ((c =? 45)%N || is_digit c).
  { destruct (scan_number (c :: rest)) as [[lit rest']|] eqn:E; [|discriminate].
    apply scan_number_shorter in E. simpl in E.
    intros H. injection H as _ <-. lia. }
  destruct (match_literal false literal_true (c :: rest)) as [r1|] eqn:E1.
  { apply match_literal_shorter in E1; [|discriminate]. simpl in E1.
    intros H. injection H as _ <-. lia. }
  destruct (match_literal false literal_false (c :: rest)) as [r2|] eqn:E2.
  { apply match_literal_shorter in E2; [|discriminate]. simpl in E2.
    intros H. injection H as _ <-. lia. }
  destruct (match_literal false literal_null (c :: rest)) as [r3|] eqn:E3;
    [|discriminate].
  apply match_literal_shorter in E3; [|discriminate]. simpl in E3.
  intros H. injection H as _ <-. lia.
Qed.

Lemma parse_elements_step_consumes
  (pv : jsstring -> option (jsvalue * jsstring))
  (pe : jsstring -> list jsvalue -> option (jsvalue * jsstring)) :
  consumes pv ->
  (forall acc, consumes (fun s => pe s acc)) ->
  forall acc, consumes (fun s => parse_elements_step pv pe s acc).
Proof.
  intros Hv He acc s v r. unfold parse_elements_step.
  destruct (pv s) as [[v0 rest]|] eqn:E; [|discriminate]. apply Hv in E.
  pose proof (skip_ws_length rest) as L.
  destruct (skip_ws rest) as [|d rest']; [discriminate|]. simpl in L.
  destruct (d =? 44)%N.
  - intros H. apply (He (acc ++ [v0])) in H. lia.
  - destruct (d =? 93)%N; [|discriminate].
    intros H. injection H as _ <-. lia.
Qed.

Lemma parse_members_step_consumes
  (pv : jsstring -> option (jsvalue * jsstring))
  (pm : jsstring -> list (jsstring * jsvalue) -> option (jsvalue * jsstring)) :
  consumes pv ->
  (forall acc, consumes (fun s => pm s acc)) ->
  forall acc, consumes (fun s => parse_members_step pv pm s acc).
Proof.
  intros Hv Hm acc s v r. unfold parse_members_step.
  pose proof (skip_ws_length s) as L.
  destruct (skip_ws s) as [|q s1]; [discriminate|]. simpl in L.
  destruct (q =? 34)%N; [|discriminate].
  destruct (parse_string_body s1) as [[k s2]|] eqn:Ek; [|discriminate].
  apply (parse_string_body_shorter _ _ _ _ (le_n _)) in Ek.
  pose proof (skip_ws_length s2) as L2.
  destruct (skip_ws s2) as [|colon s3]; [discriminate|]. simpl in L2.
  destruct (colon =? 58)%N; [|discriminate].
  destruct (pv s3) as [[v0 s4]|] eqn:E; [|discriminate]. apply Hv in E.
  pose proof (skip_ws_length s4) as L4.
  destruct (skip_ws s4) as [|d s5]; [discriminate|]. simpl in L4.
  destruct (d =? 44)%N.
  - intros H. apply (Hm (obj_set acc k v0)) in H. lia.
  - destruct (d =? 125)%N; [|discriminate].
    intros H. injection H as _ <-. lia.
Qed.

(** Every production reads at least one code unit, at any fuel. *)
Lemma parse_consumes (fuel : nat) :
  consumes (parse_value fuel)
  /\ (forall acc, consumes (fun s => parse_elements fuel s acc))
  /\ (forall acc, consumes (fun s => parse_members fuel s acc)).
Proof.
  induction fuel as [|fuel [IHv [IHe IHm]]].
  - repeat split; intros; intros s v r; discriminate.
  - split; [|split].
    + exact (parse_value_step_consumes _ _ IHe IHm).
    + exact (parse_elements_step_consumes _ _ IHv IHe).
    + exact (parse_members_step_consumes _ _ IHv IHm).
Qed.

Lemma parse_value_step_agree
  (pe pe' : jsstring -> list jsvalue -> option (jsvalue * jsstring))
  (pm pm' : jsstring -> list (jsstring * jsvalue)
            -> option (jsvalue * jsstring)) (s : jsstring) :
  (forall r acc, length r < length s -> pe r acc = pe' r acc) ->
  (forall r acc, length r < length s -> pm r acc = pm' r acc) ->
  parse_value_step pe pm s = parse_value_step pe' pm' s.
Proof.
  intros He Hm. unfold parse_value_step.
  pose proof (skip_ws_length s) as L.
  destruct (skip_ws s) as [|c rest]; [reflexivity|]. simpl in L.
  destruct (c =? 123)%N.
  { destruct (skip_ws rest) as [|d rest']; [reflexivity|].
    destruct (d =? 125)%N; [reflexivity|]. apply Hm. lia. }
  destruct (c =? 91)%N; [|reflexivity].
  destruct (skip_ws rest) as [|d rest']; [reflexivity|].
  destruct (d =? 93)%N; [reflexivity|]. apply He. lia.
Qed.

Lemma parse_elements_step_agree
  (pv pv' : jsstring -> option (jsvalue * jsstring))
  (pe pe' : jsstring -> list jsvalue -> option (jsvalue * jsstring))
  (s : jsstring) (acc : list jsvalue) :
  consumes pv -> pv s = pv' s ->
  (forall r a, length r + 2 <= length s -> pe r a = pe' r a) ->
  parse_elements_step pv pe s acc = parse_elements_step pv' pe' s acc.
Proof.
  intros Hc Hv He. unfold parse_elements_step. rewrite <- Hv.
  destruct (pv s) as [[v rest]|] eqn:E; [|reflexivity]. apply Hc in E.
  pose proof (skip_ws_length rest) as L.
  destruct (skip_ws rest) as [|d rest']; [reflexivity|]. simpl in L.
  destruct (d =? 44)%N; [|reflexivity]. apply He. lia.
Qed.

Lemma parse_members_step_agree
  (pv pv' : jsstring -> option (jsvalue * jsstring))
  (pm pm' : jsstring -> list (jsstring * jsvalue)
            -> option (jsvalue * jsstring))
  (s : jsstring) (acc : list (jsstring * jsvalue)) :
  consumes pv ->
  (forall r, length r < length s -> pv r = pv' r) ->
  (forall r a, length r + 2 <= length s -> pm r a = pm' r a) ->
  parse_members_step pv pm s acc = parse_members_step pv' pm' s acc.
Proof.
  intros Hc Hv Hm. unfold parse_members_step.
  pose proof (skip_ws_length s) as L.
  destruct (skip_ws s) as [|q s1]; [reflexivity|]. simpl in L.
  destruct (q =? 34)%N; [|reflexivity].
  destruct (parse_string_body s1) as [[k s2]|] eqn:Ek; [|reflexivity].
  apply (parse_string_body_shorter _ _ _ _ (le_n _)) in Ek.
  pose proof (skip_ws_length s2) as L2.
  destruct (skip_ws s2) as [|colon s3]; [reflexivity|]. simpl in L2.
  destruct (colon =? 58)%N; [|reflexivity].
  rewrite <- (Hv s3) by lia.
  destruct (pv s3) as [[v s4]|] eqn:E; [|reflexivity]. apply Hc in E.
  pose proof (skip_ws_length s4) as L4.
  destruct (skip_ws s4) as [|d s5]; [reflexivity|]. simpl in L4.
  destruct (d =? 44)%N; [|reflexivity]. apply Hm. lia.
Qed.

(** One more unit of fuel changes nothing once the fuel is above twice the
    length of the input. *)
Lemma parse_fuel_step (fuel : nat) :
  (forall s, 2 * length s + 1 <= fuel ->
             parse_value (S fuel) s = parse_value fuel s)
  /\ (forall s acc, 2 * length s + 2 <= fuel ->
                    parse_elements (S fuel) s acc = parse_elements fuel s acc)
  /\ (forall s acc, 2 * length s + 2 <= fuel ->
                    parse_members (S fuel) s acc = parse_members fuel s acc).
Proof.
  induction fuel as [|fuel [IHv [IHe IHm]]].
  - repeat split; intros; lia.
  - destruct (parse_consumes (S fuel)) as [Cv _]. split; [|split].
    + intros s L.
      change (parse_value_step (parse_elements (S fuel))
                (parse_members (S fuel)) s
              = parse_value_step (parse_elements fuel) (parse_members fuel) s).
      apply parse_value_step_agree; intros r acc Lr;
        [apply IHe|apply IHm]; lia.
    + intros s acc L.
      change (parse_elements_step (parse_value (S fuel))
                (parse_elements (S fuel)) s acc
              = parse_elements_step (parse_value fuel) (parse_elements fuel)
                  s acc).
      apply parse_elements_step_agree; [exact Cv|apply IHv; lia|].
      intros r a Lr. apply IHe. lia.
    + intros s acc L.
      change (parse_members_step (parse_value (S fuel))
                (parse_members (S fuel)) s acc
              = parse_members_step (parse_value fuel) (parse_members fuel)
                  s acc).
      apply parse_members_step_agree; [exact Cv| |].
      * intros r Lr. apply IHv. lia.
      * intros r a Lr. apply IHm. lia.
Qed.

(** The fuel [JSON_parse] gives is enough: no larger fuel changes what is
    read, so a [SyntaxError] of the model is never an exhausted fuel. *)
Lemma parse_value_fuel (fuel : nat) (s : jsstring) :
  2 * length s + 2 <= fuel ->
  parse_value fuel s = parse_value (2 * length s + 2) s.
Proof.
  intros L. induction L as [|m L IH]; [reflexivity|].
  rewrite <- IH. apply (proj1 (parse_fuel_step m)). lia.
Qed.

End ParseFuel.

(* ================================================================== *)
(** * Where the formatter returns *)
(* ================================================================== *)

Section FormatterReturns.

Context {R : Runtime}.

Local Abbreviation jsvalue := (value number).

(** Induction on a value, with the hypothesis on every element of an array
    and on every property value of an object. *)
Lemma value_nested_ind (P : jsvalue -> Prop) :
  P JNull ->
  (forall b, P (JBool b)) ->
  (forall n, P (JNum n)) ->
  (forall s, P (JStr s)) ->
  (forall items, Forall P items -> P (JArr items)) ->
  (forall props, Forall (fun kv => P (snd kv)) props -> P (JObj props)) ->
  forall v, P v.
Proof.
  intros HNull HBool HNum HStr HArr HObj.
  fix IH 1. intros [ | b | n | s | items | props ].
  - exact HNull.
  - apply HBool.
  - apply HNum.
  - apply HStr.
  - apply HArr. induction items as [|x items IHitems]; constructor.
    + apply IH.
    + exact IHitems.
  - apply HObj. induction props as [|[k x] props IHprops]; constructor.
    + apply IH.
    + exact IHprops.
Qed.

(** [ToString] returns on a value in which no object hides [toString]. *)
Lemma to_string_plain (v : jsvalue) :
  plain v = true -> exists s, to_string v = Ok s.
Proof.
  induction v as [ | b | n | s | items IH | props _ ] using value_nested_ind;
    intros Hp.
  - eexists. reflexivity.
  - destruct b; eexists; reflexivity.
  - eexists. reflexivity.
  - eexists. reflexivity.
  - simpl in Hp. simpl.
    assert (K : exists parts,
              sequence (map (fun x => match x with
                                      | JNull => Ok []
                                      | _ => to_string x
                                      end) items) = Ok parts).
    { induction items as [|x items IHitems]; [eexists; reflexivity|].
      simpl in Hp. apply andb_true_iff in Hp. destruct Hp as [Hx Hrest].
      inversion IH as [|? ? IHx IHrest]; subst.
      destruct (IHitems IHrest Hrest) as [parts Eparts].
      destruct (IHx Hx) as [s Es]. simpl. rewrite Eparts.
      destruct x; try rewrite Es; eexists; reflexivity. }
    destruct K as [parts ->]. eexists. reflexivity.
  - simpl in Hp. simpl.
    destruct (lookup (str "toString") props); [discriminate|].
    eexists. reflexivity.
Qed.

Lemma lookup_plain (k : jsstring) (props : list (jsstring * jsvalue))
  (v : jsvalue) :
  forallb (fun kv => plain (snd kv)) props = true ->
  lookup k props = Some v -> plain v = true.
Proof.
  induction props as [|[k' v'] props IH]; simpl; [discriminate|].
  intros Hp. apply andb_true_iff in Hp. destruct Hp as [Hv Hrest].
  destruct (list_eq_dec N.eq_dec k' k).
  - intros H. injection H as <-. exact Hv.
  - apply IH. exact Hrest.
Qed.

(** A property read off a non-null value with nothing hidden returns, and
    what it returns has nothing hidden either. *)
Lemma get_plain (v : jsvalue) (k : jsstring) :
  v <> JNull -> plain v = true ->
  exists x, get v k = Ok x /\ forall w, x = Some w -> plain w = true.
Proof.
  intros Hn Hp. destruct v; try congruence;
    try (exists None; split; [reflexivity|discriminate]).
  exists (lookup k props). split; [reflexivity|].
  intros w Hw. simpl in Hp.
  destruct (lookup (str "toString") props); [discriminate|].
  exact (lookup_plain _ _ _ Hp Hw).
Qed.

Lemma to_string_or_plain (x : option jsvalue) (fallback : jsstring) :
  (forall w, x = Some w -> plain w = true) ->
  exists s, to_string_or x fallback = Ok s.
Proof.
  intros Hx. unfold to_string_or. destruct x as [w|]; [|eexists; reflexivity].
  destruct (truthy (Some w)); [|eexists; reflexivity].
  apply to_string_plain. apply Hx. reflexivity.
Qed.

Lemma element_to_string_plain (x : option jsvalue) :
  (forall w, x = Some w -> plain w = true) ->
  exists s, element_to_string x = Ok s.
Proof.
  intros Hx. destruct x as [w|]; [|eexists; reflexivity].
  specialize (Hx w eq_refl). destruct (to_string_plain w Hx) as [s Es].
  destruct w; simpl; try (eexists; reflexivity); simpl in Es;
    rewrite Es; eexists; reflexivity.
Qed.

Lemma condition_line_plain (condition description : option jsvalue) :
  (forall w, condition = Some w -> plain w = true) ->
  (forall w, description = Some w -> plain w = true) ->
  exists line, condition_line condition description = Ok line.
Proof.
  intros Hc Hd. unfold condition_line.
  destruct (element_to_string_plain _ Hc) as [sc Ec].
  destruct (element_to_string_plain _ Hd) as [sd Ed].
  simpl filter.
  destruct (truthy condition), (truthy description); simpl;
    try rewrite Ec; try rewrite Ed; simpl; eexists; reflexivity.
Qed.

Lemma format_use_plain (message : jsstring) (u : jsvalue) :
  plain u = true -> exists message', format_use message u = Ok message'.
Proof.
  intros Hp.
  assert (K : u <> JNull -> exists message',
            result_bind (get u (str "condition")) (fun condition =>
            result_bind (get u (str "description")) (fun description =>
            result_bind (condition_line condition description) (fun line =>
            Ok (message ++ str "- "
                  ++ match line with [] => JSON_stringify u | _ => line end
                  ++ LF)))) = Ok message').
  { intros Hn.
    destruct (get_plain u (str "condition") Hn Hp) as [c [-> Hc]].
    destruct (get_plain u (str "description") Hn Hp) as [d [-> Hd]].
    simpl. destruct (condition_line_plain c d Hc Hd) as [line ->].
    eexists. reflexivity. }
  destruct u; try (eexists; reflexivity); apply K; discriminate.
Qed.

Lemma format_uses_plain : forall (uses : list jsvalue) (message : jsstring),
  forallb (@plain number) uses = true ->
  exists message', format_uses message uses = Ok message'.
Proof.
  induction uses as [|u uses IH]; intros message Hp; simpl.
  - eexists. reflexivity.
  - simpl in Hp. apply andb_true_iff in Hp. destruct Hp as [Hu Hrest].
    destruct (format_use_plain message u Hu) as [m ->]. simpl.
    apply IH. exact Hrest.
Qed.

Lemma format_effects_plain : forall (effects : list jsvalue)
  (message : jsstring),
  forallb (@plain number) effects = true ->
  exists message', format_effects message effects = Ok message'.
Proof.
  induction effects as [|e effects IH]; intros message Hp; simpl.
  - eexists. reflexivity.
  - simpl in Hp. apply andb_true_iff in Hp. destruct Hp as [He Hrest].
    destruct (to_string_plain e He) as [s ->]. simpl. apply IH. exact Hrest.
Qed.

Lemma format_group_plain (message : jsstring) (group : jsvalue) :
  group <> JNull -> plain group = true ->
  exists message', format_group message group = Ok message'.
Proof.
  intros Hn Hp.
  assert (K : exists message',
            result_bind (get group (str "severity")) (fun severity =>
            result_bind (to_string_or severity (str "Severity not specified"))
              (fun sev =>
            let message := message ++ str "- " ++ sev ++ str ":" ++ LF in
            result_bind (get group (str "effects")) (fun effects =>
            result_bind match isArray effects with
                        | Some items => format_effects message items
                        | None => Ok message
                        end (fun message => Ok (message ++ LF)))))
            = Ok message').
  { destruct (get_plain group (str "severity") Hn Hp) as [sv [-> Hsv]].
    destruct (get_plain group (str "effects") Hn Hp) as [ef [-> Hef]].
    cbn [result_bind].
    destruct (to_string_or_plain sv (str "Severity not specified") Hsv)
      as [sev ->]. cbn [result_bind].
    destruct ef as [[ | | | | items | ]|]; cbn [result_bind isArray];
      try (eexists; reflexivity).
    specialize (Hef _ eq_refl). cbn [plain] in Hef.
    destruct (format_effects_plain items
                (message ++ str "- " ++ sev ++ str ":" ++ LF) Hef) as [m ->].
    eexists. reflexivity. }
  destruct group; try exact K. eexists. reflexivity.
Qed.

Lemma format_groups_plain : forall (groups : list jsvalue)
  (message : jsstring),
  ~ In JNull groups -> forallb (@plain number) groups = true ->
  exists message', format_groups message groups = Ok message'.
Proof.
  induction groups as [|g groups IH]; intros message Hn Hp; simpl.
  - eexists. reflexivity.
  - simpl in Hp. apply andb_true_iff in Hp. destruct Hp as [Hg Hrest].
    assert (Hg' : g <> JNull) by (intros ->; apply Hn; left; reflexivity).
    destruct (format_group_plain message g Hg' Hg) as [m ->]. simpl.
    apply IH; [|exact Hrest]. intros K. apply Hn. right. exact K.
Qed.

(** X14. The formatter returns on every object in which nothing hides
    [toString] and whose [sideEffects], when an array, holds no [null]:
    the unguarded read of line 68 and the conversions of objects are the
    only places where it can throw. *)
Lemma formatMedicineData_returns (props : list (jsstring * jsvalue)) :
  plain (JObj props) = true ->
  (forall groups,
     lookup (str "sideEffects") props = Some (JArr groups) ->
     ~ In JNull groups) ->
  exists text, formatMedicineData (JObj props) = Ok text.
Proof.
  intros Hp Hgroups.
  assert (Hall : forall k w, lookup k props = Some w -> plain w = true).
  { intros k w Hw. simpl in Hp.
    destruct (lookup (str "toString") props); [discriminate|].
    exact (lookup_plain _ _ _ Hp Hw). }
  unfold formatMedicineData. cbn [get result_bind].
  destruct (to_string_or_plain (lookup (str "name") props)
              (str "Unknown medicine") (Hall _)) as [head ->].
  cbn [result_bind].
  set (m0 := head ++ LF ++ LF).
  assert (K1 : exists m1,
            match isArray (lookup (str "uses") props) with
            | Some ((_ :: _) as items) =>
                result_bind (format_uses (m0 ++ str "Uses:" ++ LF) items)
                  (fun message => Ok (message ++ LF))
            | _ => Ok m0
            end = Ok m1).
  { destruct (lookup (str "uses") props) as [[ | | | | items | ]|] eqn:E;
      cbn [isArray]; try (eexists; reflexivity).
    destruct items as [|u items]; [eexists; reflexivity|].
    pose proof (Hall _ _ E) as Hu. cbn [plain] in Hu.
    destruct (format_uses_plain (u :: items) (m0 ++ str "Uses:" ++ LF) Hu)
      as [m ->]. eexists. reflexivity. }
  destruct K1 as [m1 ->]. cbn [result_bind].
  assert (K2 : exists m2,
            match isArray (lookup (str "sideEffects") props) with
            | Some ((_ :: _) as groups) =>
                format_groups (m1 ++ str "Side Effects:" ++ LF) groups
            | _ => Ok m1
            end = Ok m2).
  { destruct (lookup (str "sideEffects") props) as [[ | | | | groups | ]|]
      eqn:E; cbn [isArray]; try (eexists; reflexivity).
    destruct groups as [|g groups]; [eexists; reflexivity|].
    pose proof (Hall _ _ E) as Hg. cbn [plain] in Hg.
    apply format_groups_plain; [exact (Hgroups _ eq_refl)|exact Hg]. }
  destruct K2 as [m2 ->]. cbn [result_bind].
  destruct (truthy (lookup (str "note") props)).
  - destruct (to_string_or_plain (lookup (str "note") props) [] (Hall _))
      as [s ->]. eexists. reflexivity.
  - eexists. reflexivity.
Qed.

End FormatterReturns.

(* ================================================================== *)
(** * The handler when the formatter throws, and checks on concrete inputs *)
(* ================================================================== *)

(** When the candidate text parses and the formatter throws, the [catch] of
    line 132 has already seen [parsed] assigned: the answer carries the
    upstream text as [text] and the parsed value as [raw]. *)
Lemma handler_formatter_throws (R : Runtime) (up : upstream)
  (req_body : option (value number)) (rawText : jsstring)
  (parsed : value number) (e : exn) :
  upstream_returns up req_body rawText ->
  JSON_parse (json_candidate rawText) = Ok parsed ->
  formatMedicineData parsed = Throw e ->
  fst (Eff.run (handler up req_body)) = Ok (answer rawText (Some parsed)).
Proof.
  intros Hup Hp Hf.
  destruct (handler_returns up req_body rawText Hup) as [q Hrun].
  rewrite Hrun. unfold Eff.try_catch, Eff.bind, parse_and_format.
  rewrite Hp, Hf. reflexivity.
Qed.

(** A populated object: name, a plain and a structured use, a plain and a
    grouped side effect, a note. *)
Example formatMedicineData_populated (R : Runtime) :
  formatMedicineData
    (JObj [(str "name", JStr (str "Aspirin"));
           (str "uses",
            JArr [JStr (str "pain");
                  JObj [(str "condition", JStr (str "fever"));
                        (str "description", JStr (str "lowers it"))];
                  JNull]);
           (str "sideEffects",
            JArr [JStr (str "nausea");
                  JObj [(str "severity", JStr (str "Common"));
                        (str "effects",
                         JArr [JStr (str "rash"); JNull; JBool true])];
                  JObj []]);
           (str "note", JStr (str "Ask a doctor."))])
  = Ok (join LF [str "Aspirin"; [];
                 str "Uses:"; str "- pain"; str "- fever: lowers it"; [];
                 str "Side Effects:"; str "- nausea"; [];
                 str "- Common:"; str "  - rash"; str "  - null";
                 str "  - true"; [];
                 str "- Severity not specified:"; [];
                 str "Note:"; str "Ask a doctor."]).
Proof.
  reflexivity.
Qed.

(** Fields of the wrong shape are passed over: [uses] that is an object,
    [sideEffects] that is a string, an empty [note]. *)
Example formatMedicineData_wrong_shapes (R : Runtime) :
  formatMedicineData
    (JObj [(str "uses", JObj []);
           (str "sideEffects", JStr (str "none"));
           (str "note", JStr [])])
  = Ok (join LF [str "Unknown medicine"; []; str "Note:"; default_note]).
Proof.
  reflexivity.
Qed.

(** A name that hides [toString] cannot be converted. *)
Example formatMedicineData_hidden_toString (R : Runtime) :
  formatMedicineData
    (JObj [(str "name", JObj [(str "toString", JNull)])])
  = Throw TypeError.
Proof.
  reflexivity.
Qed.

Example JSON_parse_nested (R : Runtime) :
  JSON_parse (str " { " ++ quoted "a" ++ str " : [ true , null , [ ] , "
              ++ quoted "x\nyA" ++ str " ] , " ++ quoted "a"
              ++ str ":false } ")
  = Ok (JObj [(str "a", JBool false)])
  /\ JSON_parse (str "[-1.5e+3, {}]")
     = Ok (JArr [JNum (number_of_literal (str "-1.5e+3")); JObj []])
  /\ JSON_parse (str "[1,]") = Throw SyntaxError
  /\ JSON_parse (str "01") = Throw SyntaxError
  /\ JSON_parse (str "{} x") = Throw SyntaxError
  /\ JSON_parse [] = Throw SyntaxError.
Proof.
  repeat split; reflexivity.
Qed.

(** The first fence wins the generic match, the nearest closing fence ends
    it, and a label without a closing fence is no block. *)
Example extractJson_samples :
  extractJson (Some sample_labelled) = Some (str "{x}")
  /\ extractJson (Some sample_unclosed_label) = Some (str "a")
  /\ extractJson (Some sample_braces) = Some (str "{b} c }")
  /\ extractJson (Some (str "```json a ``` b ```json c ```")) = Some (str "a")
  /\ extractJson (Some (str "no candidate")) = None.
Proof.
  repeat split; reflexivity.
Qed.

(* ================================================================== *)
(** * Trimming *)
(* ================================================================== *)

Lemma trimStart_split (s : jsstring) :
  exists ws, s = ws ++ trimStart s /\ white ws.
Proof.
  induction s as [|c s [ws [E Hws]]]; simpl.
  - exists []. split; [reflexivity|constructor].
  - destruct (is_white_space c) eqn:Ec.
    + exists (c :: ws). split; [simpl; congruence|constructor; assumption].
    + exists []. split; [reflexivity|constructor].
Qed.

Lemma trimStart_head (s : jsstring) (c : code_unit) (rest : jsstring) :
  trimStart s = c :: rest -> is_white_space c = false.
Proof.
  induction s as [|x s IH]; simpl; [discriminate|].
  destruct (is_white_space x) eqn:Ex; [exact IH|].
  intros H. injection H as <- _. exact Ex.
Qed.

Lemma trimStart_white_app (ws s : jsstring) :
  white ws -> trimStart (ws ++ s) = trimStart s.
Proof.
  induction 1 as [|c ws Hc _ IH]; simpl; [reflexivity|].
  rewrite Hc. exact IH.
Qed.

(** [trimStart] leaves alone what follows a code unit it keeps. *)
Lemma trimStart_app (a b : jsstring) (c : code_unit) (rest : jsstring) :
  b = c :: rest -> is_white_space c = false ->
  trimStart (a ++ b) = trimStart a ++ b.
Proof.
  intros -> Hc. induction a as [|x a IH]; simpl.
  - rewrite Hc. reflexivity.
  - destruct (is_white_space x); [exact IH|reflexivity].
Qed.

(** [trimEnd] cuts after the last code unit that is not white space. *)
Lemma trimEnd_keep (x : jsstring) (c : code_unit) (ws : jsstring) :
  is_white_space c = false -> white ws -> trimEnd (x ++ c :: ws) = x ++ [c].
Proof.
  intros Hc Hws. unfold trimEnd.
  rewrite rev_app_distr. simpl rev. rewrite <- app_assoc. simpl app.
  rewrite trimStart_white_app.
  - simpl. rewrite Hc. simpl. rewrite rev_involutive. reflexivity.
  - unfold white. apply Forall_rev. exact Hws.
Qed.

Lemma trimEnd_split (s : jsstring) :
  exists ws, s = trimEnd s ++ ws /\ white ws.
Proof.
  destruct (trimStart_split (rev s)) as [ws [E Hws]].
  exists (rev ws). split.
  - unfold trimEnd. rewrite <- rev_app_distr, <- E, rev_involutive.
    reflexivity.
  - unfold white. apply Forall_rev. exact Hws.
Qed.

Lemma trimEnd_last (s init : jsstring) (c : code_unit) :
  trimEnd s = init ++ [c] -> is_white_space c = false.
Proof.
  unfold trimEnd. intros H. apply (f_equal (@rev _)) in H.
  rewrite rev_involutive, rev_app_distr in H. simpl in H.
  exact (trimStart_head _ _ _ H).
Qed.

(** What [trim] returns has no white space at either end. *)
Lemma trim_trimmed (s : jsstring) : trimmed (trim s).
Proof.
  unfold trim. split.
  - intros c rest E. destruct (trimEnd_split (trimStart s)) as [ws [Es _]].
    rewrite E in Es. simpl in Es. exact (trimStart_head _ _ _ Es).
  - intros init c E. exact (trimEnd_last _ _ _ E).
Qed.

(** What [trim] returns is the input less white space at both ends. *)
Lemma trim_split (s : jsstring) :
  exists before after, s = before ++ trim s ++ after
                       /\ white before /\ white after.
Proof.
  destruct (trimStart_split s) as [before [E1 H1]].
  destruct (trimEnd_split (trimStart s)) as [after [E2 H2]].
  exists before, after. split; [|split; assumption].
  unfold trim. rewrite <- E2. exact E1.
Qed.

(** [trim] changes nothing in a string already trimmed. *)
Lemma trim_id (s : jsstring) : trimmed s -> trim s = s.
Proof.
  intros [Hhead Hlast]. unfold trim. destruct s as [|c rest]; [reflexivity|].
  simpl trimStart. rewrite (Hhead c rest eq_refl).
  destruct (exists_last (l := c :: rest)) as [init [l E]]; [discriminate|].
  rewrite E. rewrite (trimEnd_keep init l []).
  - reflexivity.
  - exact (Hlast _ _ E).
  - constructor.
Qed.

Lemma substring_of_trans (a b c : jsstring) :
  substring_of a b -> substring_of b c -> substring_of a c.
Proof.
  intros [p1 [q1 ->]] [p2 [q2 ->]]. exists (p2 ++ p1), (q1 ++ q2).
  rewrite <- !app_assoc. reflexivity.
Qed.

Lemma trim_substring (s : jsstring) : substring_of (trim s) s.
Proof.
  destruct (trim_split s) as [before [after [E _]]].
  exists before, after. exact E.
Qed.

Lemma slice_substring (s : jsstring) (start end_ : Z) :
  substring_of (slice s start end_) s.
Proof.
  unfold slice. cbv zeta.
  match goal with
  | |- substring_of (firstn ?span (skipn ?from s)) s =>
      exists (firstn from s), (skipn span (skipn from s));
      rewrite (firstn_skipn span (skipn from s));
      rewrite (firstn_skipn from s)
  end.
  reflexivity.
Qed.

(* ================================================================== *)
(** * More on the JSON extractor *)
(* ================================================================== *)

Lemma no_generic_block_no_match (text : jsstring) :
  (forall p b q, ~ generic_block text p b q) ->
  regex_match true json_fence fence text = None
  /\ regex_match false fence fence text = None.
Proof.
  intros Hno. split.
  - destruct (regex_match true json_fence fence text) as [g|] eqn:E;
      [|reflexivity].
    exfalso. destruct (regex_match_Some _ _ _ _ E) as [p [q [Hb _]]].
    destruct (json_block_generic _ _ _ _ Hb) as [b' Hb'].
    exact (Hno _ _ _ Hb').
  - destruct (regex_match false fence fence text) as [g|] eqn:E;
      [|reflexivity].
    exfalso. destruct (regex_match_Some _ _ _ _ E) as [p [q [Hb _]]].
    exact (Hno _ _ _ Hb).
Qed.

(** The two searches and the slice of lines 31-34 on a text whose first
    opening brace comes before its last closing brace. *)
Lemma brace_span_indices (text pre mid post : jsstring) :
  brace_span text pre mid post ->
  indexOf text open_brace = Z.of_nat (length pre)
  /\ lastIndexOf text close_brace = Z.of_nat (length pre + S (length mid))
  /\ slice text (Z.of_nat (length pre))
       (Z.of_nat (length pre + S (length mid)) + 1)
     = open_brace :: mid ++ [close_brace].
Proof.
  intros [Et [Hpre Hpost]]. split; [|split].
  - rewrite Et. unfold indexOf. rewrite indexOf_from_first by exact Hpre. lia.
  - rewrite Et. unfold lastIndexOf.
    change (pre ++ open_brace :: mid ++ close_brace :: post)
      with (pre ++ (open_brace :: mid) ++ close_brace :: post).
    rewrite app_assoc, lastIndexOf_from_last by exact Hpost.
    rewrite length_app. simpl. lia.
  - rewrite Et. apply slice_span.
Qed.

(** When the test of line 33 passes, the text has such a pair of braces. *)
Lemma brace_test_span (text : jsstring) :
  negb (indexOf text open_brace =? -1)%Z
  && negb (lastIndexOf text close_brace =? -1)%Z
  && (lastIndexOf text close_brace >? indexOf text open_brace)%Z = true ->
  exists pre mid post, brace_span text pre mid post.
Proof.
  destruct (indexOf_cases open_brace text)
    as [[_ ->]|[pre1 [rest1 [E1 [H1 ->]]]]]; [discriminate|].
  destruct (lastIndexOf_cases close_brace text)
    as [[_ ->]|[pre2 [rest2 [E2 [H2 ->]]]]];
    [rewrite andb_false_r; discriminate|].
  destruct (Z.gtb_spec (Z.of_nat (length pre2)) (Z.of_nat (length pre1)))
    as [Hlt|_]; [|rewrite andb_false_r; discriminate].
  intros _.
  assert (E : pre1 ++ open_brace :: rest1 = pre2 ++ close_brace :: rest2)
    by congruence.
  apply app_eq_app in E. destruct E as [l [[Ea Eb]|[Ea Eb]]].
  - exfalso. assert (l = []).
    { apply (f_equal (@length _)) in Ea. rewrite length_app in Ea.
      destruct l; [reflexivity|simpl in Ea; lia]. }
    subst l. simpl in Eb. discriminate.
  - destruct l as [|x mid]; [simpl in Eb; discriminate|].
    simpl in Eb. injection Eb as Ex Er. subst x rest1.
    exists pre1, mid, rest2. split; [|split; assumption].
    rewrite E2, Ea. rewrite <- app_assoc. reflexivity.
Qed.

Lemma brace_span_nonempty (text pre mid post : jsstring) :
  brace_span text pre mid post -> text <> [].
Proof.
  intros [Et _] ->. destruct pre; discriminate.
Qed.

(** The result on the brace path, before any simplification of [trim]. *)
Lemma brace_path_result (text pre mid post : jsstring) :
  (forall p b q, ~ generic_block text p b q) ->
  brace_span text pre mid post ->
  extractJson (Some text) = Some (trim (open_brace :: mid ++ [close_brace])).
Proof.
  intros Hno Hs.
  destruct (no_generic_block_no_match text Hno) as [Hj Hg].
  destruct (brace_span_indices _ _ _ _ Hs) as [Hi [Hl Hsl]].
  rewrite extractJson_unfold by exact (brace_span_nonempty _ _ _ _ Hs).
  rewrite Hj, Hg, Hi, Hl, Hsl.
  destruct (Z.eqb_spec (Z.of_nat (length pre)) (-1)); [lia|].
  destruct (Z.eqb_spec (Z.of_nat (length pre + S (length mid))) (-1)); [lia|].
  destruct (Z.gtb_spec (Z.of_nat (length pre + S (length mid)))
              (Z.of_nat (length pre))); [|lia].
  reflexivity.
Qed.

Lemma braces_trimmed (mid : jsstring) :
  trimmed (open_brace :: mid ++ [close_brace]).
Proof.
  split.
  - intros c rest E. injection E as <- _. reflexivity.
  - intros init c E.
    change (open_brace :: mid ++ [close_brace])
      with ((open_brace :: mid) ++ [close_brace]) in E.
    apply app_inj_tail in E. destruct E as [_ <-]. reflexivity.
Qed.

(** A block inside a piece of the text is a block of the text. *)
Lemma block_of_substring (ic : bool) (open s text p b q : jsstring) :
  substring_of s text -> block ic open s p b q ->
  exists p' q', block ic open text p' b q'.
Proof.
  intros [pre [post ->]] [op [cl [-> H]]].
  exists (pre ++ p), (q ++ post), op, cl. split; [|exact H].
  rewrite <- !app_assoc. reflexivity.
Qed.

(** The interior of a first block holds no fence: the nearest closing fence
    ends it. *)
Lemma first_block_no_fence (ic : bool) (open text pre g post : jsstring) :
  first_block (block ic open text) pre g post -> ~ substring_of fence g.
Proof.
  intros [[op [cl [E [Hop Hcl]]]] Hmin] [a [b Eg]].
  assert (Hb : block ic open text pre a (b ++ cl ++ post)).
  { exists op, fence. split; [|split].
    - rewrite E, Eg. rewrite <- !app_assoc. reflexivity.
    - exact Hop.
    - apply reads_as_fence. reflexivity. }
  specialize (Hmin _ _ _ Hb).
  apply (f_equal (@length _)) in Eg. rewrite !length_app in Eg.
  simpl in Eg. lia.
Qed.

(** X1. Whatever [extractJson] returns has no white space at either end:
    each of its three returns goes through [trim]. *)
Theorem extractJson_trimmed (input : option jsstring) (s : jsstring) :
  extractJson input = Some s -> trimmed s.
Proof.
  destruct input as [[|c text]|]; try discriminate.
  rewrite extractJson_unfold by discriminate.
  destruct (regex_match true json_fence fence (c :: text)).
  { intros H. injection H as <-. apply trim_trimmed. }
  destruct (regex_match false fence fence (c :: text)).
  { intros H. injection H as <-. apply trim_trimmed. }
  match goal with |- (if ?b then _ else _) = _ -> _ => destruct b end;
    [|discriminate].
  intros H. injection H as <-. apply trim_trimmed.
Qed.

Lemma extractJson_trimmed_witness : trimmed (str "{x}").
Proof.
  apply (extractJson_trimmed (Some sample_labelled)). reflexivity.
Defined.

(** X2. Whatever [extractJson] returns is one contiguous piece of the text
    it was given: it never adds, reorders or joins. *)
Theorem extractJson_substring (text s : jsstring) :
  extractJson (Some text) = Some s -> substring_of s text.
Proof.
  destruct text as [|c text]; [discriminate|].
  rewrite extractJson_unfold by discriminate.
  assert (K : forall ic open g,
            regex_match ic open fence (c :: text) = Some g ->
            substring_of (trim g) (c :: text)).
  { intros ic open g E.
    destruct (regex_match_Some _ _ _ _ E) as [p [q [[op [cl [Et _]]] _]]].
    apply (substring_of_trans _ g); [apply trim_substring|].
    exists (p ++ op), (cl ++ q). rewrite Et, <- !app_assoc. reflexivity. }
  destruct (regex_match true json_fence fence (c :: text)) as [g|] eqn:Ej.
  { intros H. injection H as <-. exact (K _ _ _ Ej). }
  destruct (regex_match false fence fence (c :: text)) as [g|] eqn:Eg.
  { intros H. injection H as <-. exact (K _ _ _ Eg). }
  match goal with |- (if ?b then _ else _) = _ -> _ => destruct b end;
    [|discriminate].
  intros H. injection H as <-.
  eapply substring_of_trans; [apply trim_substring|apply slice_substring].
Qed.

Lemma extractJson_substring_witness :
  substring_of (str "{b} c }") sample_braces.
Proof.
  apply (extractJson_substring sample_braces). reflexivity.
Defined.

(** X3. [extractJson] returns nothing exactly on the texts that have neither
    a fenced block nor an opening brace before a closing one. *)
Theorem extractJson_miss (text : jsstring) :
  extractJson (Some text) = None
  <-> (forall p b q, ~ generic_block text p b q)
      /\ (forall pre mid post, ~ brace_span text pre mid post).
Proof.
  split.
  - intros H. destruct text as [|c text].
    + split.
      * intros p b q. apply block_nonempty.
      * intros pre mid post Hs. exact (brace_span_nonempty _ _ _ _ Hs eq_refl).
    + assert (Eg : regex_match false fence fence (c :: text) = None).
      { rewrite extractJson_unfold in H by discriminate.
        destruct (regex_match true json_fence fence (c :: text));
          [discriminate|].
        destruct (regex_match false fence fence (c :: text));
          [discriminate|reflexivity]. }
      assert (Hno : forall p b q, ~ generic_block (c :: text) p b q)
        by exact (regex_match_None _ _ _ Eg).
      split; [exact Hno|].
      intros pre mid post Hs.
      rewrite (brace_path_result _ _ _ _ Hno Hs) in H. discriminate.
  - intros [Hno Hnone]. destruct text as [|c text]; [reflexivity|].
    destruct (no_generic_block_no_match _ Hno) as [Hj Hg].
    rewrite extractJson_unfold by discriminate. rewrite Hj, Hg.
    match goal with |- (if ?b then _ else _) = _ => destruct b eqn:Eb end;
      [|reflexivity].
    exfalso. destruct (brace_test_span _ Eb) as [pre [mid [post Hs]]].
    exact (Hnone _ _ _ Hs).
Qed.

(** X4. On the brace path trimming changes nothing: the result is exactly
    the text from the first opening brace to the last closing brace, so it
    begins with the one and ends with the other. *)
Theorem extractJson_braces_exact (text pre mid post : jsstring) :
  (forall p b q, ~ generic_block text p b q) ->
  brace_span text pre mid post ->
  extractJson (Some text) = Some (open_brace :: mid ++ [close_brace]).
Proof.
  intros Hno Hs. rewrite (brace_path_result _ _ _ _ Hno Hs).
  rewrite trim_id by apply braces_trimmed. reflexivity.
Qed.

Lemma extractJson_braces_exact_witness :
  extractJson (Some sample_braces)
  = Some (open_brace :: str "b} c " ++ [close_brace]).
Proof.
  apply (extractJson_braces_exact sample_braces (str "a ") _ (str " d")).
  - apply regex_match_None. vm_compute. reflexivity.
  - split; [reflexivity|]. split; vm_compute; intuition discriminate.
Defined.

(** X5. On a text without fenced block the extractor is stable on its own
    result: extracting again returns the same text. *)
Theorem extractJson_braces_idempotent (text s : jsstring) :
  (forall p b q, ~ generic_block text p b q) ->
  extractJson (Some text) = Some s ->
  extractJson (Some s) = Some s.
Proof.
  intros Hno H.
  assert (Hsub : substring_of s text).
  { destruct text as [|c text]; [discriminate|].
    rewrite extractJson_unfold in H by discriminate.
    destruct (no_generic_block_no_match _ Hno) as [Hj Hg].
    rewrite Hj, Hg in H.
    match type of H with (if ?b then _ else _) = _ => destruct b end;
      [|discriminate].
    injection H as <-.
    eapply substring_of_trans; [apply trim_substring|apply slice_substring]. }
  assert (Hspan : exists pre mid post, brace_span text pre mid post).
  { destruct text as [|c text]; [discriminate|].
    rewrite extractJson_unfold in H by discriminate.
    destruct (no_generic_block_no_match _ Hno) as [Hj Hg].
    rewrite Hj, Hg in H.
    match type of H with (if ?b then _ else _) = _ => destruct b eqn:Eb end;
      [|discriminate].
    exact (brace_test_span _ Eb). }
  destruct Hspan as [pre [mid [post Hs]]].
  rewrite (brace_path_result _ _ _ _ Hno Hs) in H.
  rewrite trim_id in H by apply braces_trimmed. injection H as <-.
  rewrite (brace_path_result _ [] mid []).
  - rewrite trim_id by apply braces_trimmed. reflexivity.
  - intros p b q Hb.
    destruct (block_of_substring _ _ _ _ _ _ _ Hsub Hb) as [p' [q' Hb']].
    exact (Hno _ _ _ Hb').
  - split; [reflexivity|]. split; intros K; exact K.
Qed.

Lemma extractJson_braces_idempotent_witness :
  extractJson (Some (str "{b} c }")) = Some (str "{b} c }").
Proof.
  apply (extractJson_braces_idempotent sample_braces).
  - apply regex_match_None. vm_compute. reflexivity.
  - reflexivity.
Defined.

(** X6. On a text with a fenced block the result never holds a fence: it
    lies inside one block, between its opening marker and the nearest
    closing fence. *)
Theorem extractJson_inside_one_block (text p b q s : jsstring) :
  generic_block text p b q ->
  extractJson (Some text) = Some s ->
  ~ substring_of fence s.
Proof.
  intros Hb H Hf.
  rewrite extractJson_unfold in H by exact (block_text_nonempty _ _ _ _ _ _ Hb).
  assert (K : forall ic open g,
            regex_match ic open fence text = Some g ->
            ~ substring_of fence (trim g)).
  { intros ic open g E Hin.
    destruct (regex_match_Some _ _ _ _ E) as [p0 [q0 Hfirst]].
    apply (first_block_no_fence _ _ _ _ _ _ Hfirst).
    exact (substring_of_trans _ _ _ Hin (trim_substring g)). }
  destruct (regex_match true json_fence fence text) as [g|] eqn:Ej.
  { injection H as <-. exact (K _ _ _ Ej Hf). }
  destruct (regex_match false fence fence text) as [g|] eqn:Eg.
  { injection H as <-. exact (K _ _ _ Eg Hf). }
  exact (regex_match_None _ _ _ Eg _ _ _ Hb).
Qed.

Lemma extractJson_inside_one_block_witness :
  ~ substring_of fence (str "{x}").
Proof.
  apply (extractJson_inside_one_block sample_labelled
           (str "} ") (str " a ")
           (str " ```JSON" ++ LF ++ str "{x}" ++ LF ++ str "```"
            ++ str " { ```json b ```")).
  - exists fence, fence. split; [reflexivity|]. split; repeat constructor.
  - reflexivity.
Defined.

Lemma extractJson_miss_witness :
  extractJson (Some (str "no candidate } here {")) = None.
Proof.
  apply (extractJson_miss (str "no candidate } here {")). split.
  - apply regex_match_None. vm_compute. reflexivity.
  - intros pre mid post Hs.
    destruct (brace_span_indices _ _ _ _ Hs) as [Hi [Hl _]].
    assert (A : indexOf (str "no candidate } here {") open_brace = 20%Z)
      by reflexivity.
    assert (B : lastIndexOf (str "no candidate } here {") close_brace = 13%Z)
      by reflexivity.
    rewrite A in Hi. rewrite B in Hl. lia.
Defined.

(* ================================================================== *)
(** * More on the formatter *)
(* ================================================================== *)

Lemma trimEnd_app (x w : jsstring) :
  trimEnd w <> [] -> trimEnd (x ++ w) = x ++ trimEnd w.
Proof.
  intros Hne. destruct (trimEnd_split w) as [ws [E Hws]].
  destruct (exists_last Hne) as [init [l El]].
  pose proof (trimEnd_last _ _ _ El) as Hl.
  rewrite El in E. rewrite El.
  rewrite E at 1. rewrite <- app_assoc. simpl app.
  rewrite app_assoc. rewrite trimEnd_keep by assumption.
  rewrite <- app_assoc. reflexivity.
Qed.

Lemma trimEnd_cons (c : code_unit) (w : jsstring) :
  is_white_space c = false -> trimEnd (c :: w) = c :: trimEnd w.
Proof.
  intros Hc. destruct (trimEnd_split w) as [ws [E Hws]].
  destruct (trimEnd w) as [|x t] eqn:Ew.
  - simpl in E. subst w. apply (trimEnd_keep [] c ws Hc Hws).
  - change (c :: w) with ([c] ++ w). rewrite trimEnd_app; rewrite Ew.
    + reflexivity.
    + discriminate.
Qed.

Lemma result_bind_Ok (A B : Type) (r : result A) (f : A -> result B) (b : B) :
  result_bind r f = Ok b -> exists a, r = Ok a /\ f a = Ok b.
Proof.
  destruct r as [a|e]; simpl; [|discriminate].
  intros H. exists a. split; [reflexivity|exact H].
Qed.

Section FormatterFacts.

Context {R : Runtime}.

Local Abbreviation jsvalue := (value number).

(** The loops only ever append to the message. *)
Lemma format_use_appends (message : jsstring) (u : jsvalue)
  (message' : jsstring) :
  format_use message u = Ok message' -> exists x, message' = message ++ x.
Proof.
  assert (K : forall r : result jsstring,
            result_bind r (fun line =>
              Ok (message ++ str "- "
                    ++ match line with [] => JSON_stringify u | _ => line end
                    ++ LF)) = Ok message' ->
            exists x, message' = message ++ x).
  { intros r H. apply result_bind_Ok in H. destruct H as [line [_ H]].
    injection H as <-. eexists. reflexivity. }
  destruct u; unfold format_use, get; cbn [result_bind];
    try (intros H; injection H as <-; exists [];
         symmetry; apply app_nil_r);
    try apply K.
  intros H. injection H as <-. eexists. reflexivity.
Qed.

Lemma format_uses_appends : forall (uses : list jsvalue)
  (message message' : jsstring),
  format_uses message uses = Ok message' -> exists x, message' = message ++ x.
Proof.
  induction uses as [|u uses IH]; intros message message' H; simpl in H.
  - injection H as <-. exists []. symmetry. apply app_nil_r.
  - apply result_bind_Ok in H. destruct H as [m1 [H1 H2]].
    destruct (format_use_appends _ _ _ H1) as [x ->].
    destruct (IH _ _ H2) as [y ->].
    exists (x ++ y). rewrite app_assoc. reflexivity.
Qed.

Lemma format_effects_appends : forall (effects : list jsvalue)
  (message message' : jsstring),
  format_effects message effects = Ok message' ->
  exists x, message' = message ++ x.
Proof.
  induction effects as [|e effects IH]; intros message message' H;
    simpl in H.
  - injection H as <-. exists []. symmetry. apply app_nil_r.
  - apply result_bind_Ok in H. destruct H as [s [_ H]].
    destruct (IH _ _ H) as [y ->].
    eexists. rewrite <- app_assoc. reflexivity.
Qed.

Lemma format_group_appends (message : jsstring) (group : jsvalue)
  (message' : jsstring) :
  format_group message group = Ok message' ->
  exists x, message' = message ++ x.
Proof.
  assert (K : result_bind (get group (str "severity")) (fun severity =>
              result_bind
                (to_string_or severity (str "Severity not specified"))
                (fun sev =>
              let message := message ++ str "- " ++ sev ++ str ":" ++ LF in
              result_bind (get group (str "effects")) (fun effects =>
              result_bind match isArray effects with
                          | Some items => format_effects message items
                          | None => Ok message
                          end (fun message => Ok (message ++ LF)))))
              = Ok message' ->
            exists x, message' = message ++ x).
  { intros H.
    apply result_bind_Ok in H. destruct H as [severity [_ H]].
    apply result_bind_Ok in H. destruct H as [sev [_ H]].
    cbv zeta in H.
    apply result_bind_Ok in H. destruct H as [effects [_ H]].
    apply result_bind_Ok in H. destruct H as [m1 [H1 H]].
    injection H as <-.
    destruct (isArray effects) as [items|].
    - destruct (format_effects_appends _ _ _ H1) as [y ->].
      eexists. rewrite <- !app_assoc. reflexivity.
    - injection H1 as <-. eexists. rewrite <- !app_assoc. reflexivity. }
  destruct group; try exact K.
  simpl. intros H. injection H as <-. eexists. reflexivity.
Qed.

Lemma format_groups_appends : forall (groups : list jsvalue)
  (message message' : jsstring),
  format_groups message groups = Ok message' ->
  exists x, message' = message ++ x.
Proof.
  induction groups as [|g groups IH]; intros message message' H; simpl in H.
  - injection H as <-. exists []. symmetry. apply app_nil_r.
  - apply result_bind_Ok in H. destruct H as [m1 [H1 H2]].
    destruct (format_group_appends _ _ _ H1) as [x ->].
    destruct (IH _ _ H2) as [y ->].
    exists (x ++ y). rewrite app_assoc. reflexivity.
Qed.

(** Every report is the name line, whatever the two loops appended, and the
    note section, trimmed. *)
Lemma formatMedicineData_shape (data : jsvalue) (text : jsstring) :
  formatMedicineData data = Ok text ->
  exists name note head middle note_text,
    get data (str "name") = Ok name
    /\ to_string_or name (str "Unknown medicine") = Ok head
    /\ get data (str "note") = Ok note
    /\ to_string_or note default_note = Ok note_text
    /\ text = trim ((head ++ LF ++ LF ++ middle)
                    ++ str "Note:" ++ LF ++ note_text ++ LF).
Proof.
  unfold formatMedicineData. intros H.
  apply result_bind_Ok in H. destruct H as [name [Hname H]].
  apply result_bind_Ok in H. destruct H as [head [Hhead H]].
  cbv zeta in H.
  apply result_bind_Ok in H. destruct H as [uses [_ H]].
  apply result_bind_Ok in H. destruct H as [m1 [H1 H]].
  apply result_bind_Ok in H. destruct H as [sideEffects [_ H]].
  apply result_bind_Ok in H. destruct H as [m2 [H2 H]].
  apply result_bind_Ok in H. destruct H as [note [Hnote H]].
  apply result_bind_Ok in H. destruct H as [m3 [H3 H]].
  injection H as <-.
  assert (E1 : exists x, m1 = (head ++ LF ++ LF) ++ x).
  { destruct (isArray uses) as [[|u items]|].
    - injection H1 as <-. exists []. symmetry. apply app_nil_r.
    - apply result_bind_Ok in H1. destruct H1 as [m [Hm H1]].
      injection H1 as <-. destruct (format_uses_appends _ _ _ Hm) as [y ->].
      eexists. rewrite <- !app_assoc. reflexivity.
    - injection H1 as <-. exists []. symmetry. apply app_nil_r. }
  destruct E1 as [x ->].
  assert (E2 : exists y, m2 = ((head ++ LF ++ LF) ++ x) ++ y).
  { destruct (isArray sideEffects) as [[|g groups]|].
    - injection H2 as <-. exists []. symmetry. apply app_nil_r.
    - destruct (format_groups_appends _ _ _ H2) as [y ->].
      eexists. rewrite <- !app_assoc. reflexivity.
    - injection H2 as <-. exists []. symmetry. apply app_nil_r. }
  destruct E2 as [y ->].
  exists name, note, head, (x ++ y).
  assert (E3 : exists note_text,
            to_string_or note default_note = Ok note_text
            /\ m3 = (((head ++ LF ++ LF) ++ x) ++ y)
                    ++ str "Note:" ++ LF ++ note_text ++ LF).
  { unfold to_string_or in *. destruct note as [v|].
    - destruct (truthy (Some v)).
      + apply result_bind_Ok in H3. destruct H3 as [s [Hs H3]].
        injection H3 as <-. exists s. split; [exact Hs|reflexivity].
      + injection H3 as <-. eexists. split; reflexivity.
    - simpl in H3. injection H3 as <-. eexists. split; reflexivity. }
  destruct E3 as [note_text [Hnt ->]].
  exists note_text. repeat split; try assumption.
  rewrite <- !app_assoc. reflexivity.
Qed.

(** The trimmed report keeps its note section whole, up to the white space
    that ends it. *)
Lemma trim_note_section (before note_text : jsstring) :
  trim (before ++ str "Note:" ++ LF ++ note_text ++ LF)
  = trimStart before ++ str "Note:" ++ trimEnd (LF ++ note_text ++ LF).
Proof.
  unfold trim.
  rewrite (trimStart_app before _ 78%N
             (str "ote:" ++ LF ++ note_text ++ LF)) by reflexivity.
  assert (K : trimEnd (str "Note:" ++ LF ++ note_text ++ LF)
              = str "Note:" ++ trimEnd (LF ++ note_text ++ LF)).
  { change (str "Note:" ++ LF ++ note_text ++ LF)
      with (78 :: 111 :: 116 :: 101 :: 58 :: LF ++ note_text ++ LF)%N.
    rewrite !trimEnd_cons by reflexivity. reflexivity. }
  rewrite trimEnd_app; rewrite K; [reflexivity|discriminate].
Qed.

End FormatterFacts.

Section SchemaFacts.

Context {R : Runtime}.

Local Abbreviation jsvalue := (value number).

Lemma to_string_or_string (s fallback : jsstring) :
  to_string_or (Some (JStr s : jsvalue)) fallback = Ok (or_default s fallback).
Proof.
  destruct s; reflexivity.
Qed.

Lemma format_uses_strings : forall (uses : list jsstring) (message : jsstring),
  format_uses message (map (fun u => JStr u : jsvalue) uses)
  = Ok (message ++ concat (map (fun u => str "- " ++ u ++ LF) uses)).
Proof.
  induction uses as [|u uses IH]; intros message.
  - simpl. rewrite app_nil_r. reflexivity.
  - cbn [map format_uses format_use result_bind]. rewrite IH.
    cbn [map concat]. rewrite <- !app_assoc. reflexivity.
Qed.

Lemma format_effects_strings : forall (effects : list jsstring)
  (message : jsstring),
  format_effects message (map (fun e => JStr e : jsvalue) effects)
  = Ok (message ++ concat (map (fun e => str "  - " ++ e ++ LF) effects)).
Proof.
  induction effects as [|e effects IH]; intros message.
  - simpl. rewrite app_nil_r. reflexivity.
  - cbn [map format_effects to_string result_bind]. rewrite IH.
    cbn [map concat]. rewrite <- !app_assoc. reflexivity.
Qed.

Lemma format_group_conforms (message : jsstring) (g : jsvalue)
  (sg : severity_group) :
  group_conforms g sg ->
  format_group message g = Ok (message ++ report_group sg).
Proof.
  intros [props [-> [Hsev Heff]]].
  unfold format_group, get. cbn [result_bind]. rewrite Hsev, Heff.
  rewrite to_string_or_string. cbn [result_bind isArray].
  rewrite format_effects_strings. cbn [result_bind].
  unfold report_group. rewrite <- !app_assoc. reflexivity.
Qed.

Lemma format_groups_conforms : forall (groups : list jsvalue)
  (sgs : list severity_group) (message : jsstring),
  Forall2 group_conforms groups sgs ->
  format_groups message groups
  = Ok (message ++ concat (map report_group sgs)).
Proof.
  intros groups sgs message H. revert message.
  induction H as [|g sg groups sgs Hg _ IH]; intros message.
  - simpl. rewrite app_nil_r. reflexivity.
  - cbn [format_groups]. rewrite (format_group_conforms _ _ _ Hg).
    cbn [result_bind]. rewrite IH. cbn [map concat].
    rewrite <- !app_assoc. reflexivity.
Qed.

End SchemaFacts.

(** X7. On an object that carries a MedicineInfo as the prompt asks for it,
    the formatter returns, and what it returns is the report on that
    MedicineInfo, trimmed: the name, one bullet per use, one subgroup per
    severity group with one bullet per effect, the note; an empty name,
    severity or note takes its fallback, an empty list drops its section.
    Properties the schema does not know, and their order, do not matter. *)
Theorem formatMedicineData_schema (R : Runtime)
  (props : list (jsstring * value number)) (m : medicine_info) :
  conforms props m ->
  formatMedicineData (JObj props) = Ok (trim (report m)).
Proof.
  intros [Hname [Huses [[groups [Hse Hgroups]] Hnote]]].
  unfold formatMedicineData, get. cbn [result_bind].
  rewrite Hname, Huses, Hse, Hnote. rewrite to_string_or_string.
  cbn [result_bind isArray].
  set (m0 := or_default (mi_name m) (str "Unknown medicine") ++ LF ++ LF).
  assert (E1 : match map (fun u => JStr u : value number) (mi_uses m) with
               | [] => Ok m0
               | _ :: _ =>
                   result_bind
                     (format_uses (m0 ++ str "Uses:" ++ LF)
                        (map (fun u => JStr u : value number) (mi_uses m)))
                     (fun message => Ok (message ++ LF))
               end = Ok (m0 ++ report_uses (mi_uses m))).
  { destruct (mi_uses m) as [|u uses] eqn:Eu.
    - simpl. rewrite app_nil_r. reflexivity.
    - rewrite <- Eu at 1. rewrite Eu at 1. cbn [map].
      change (JStr u :: map (fun u0 => JStr u0 : value number) uses)
        with (map (fun u0 => JStr u0 : value number) (u :: uses)).
      rewrite format_uses_strings. cbn [result_bind].
      unfold report_uses. rewrite <- !app_assoc. reflexivity. }
  rewrite E1. cbn [result_bind].
  set (m1 := m0 ++ report_uses (mi_uses m)).
  assert (E2 : match groups with
               | [] => Ok m1
               | _ :: _ =>
                   format_groups (m1 ++ str "Side Effects:" ++ LF) groups
               end = Ok (m1 ++ report_sideEffects (mi_sideEffects m))).
  { destruct Hgroups as [|g sg groups sgs Hg Hrest].
    - simpl. rewrite app_nil_r. reflexivity.
    - rewrite (format_groups_conforms (g :: groups) (sg :: sgs))
        by (constructor; assumption).
      unfold report_sideEffects. rewrite <- !app_assoc. reflexivity. }
  rewrite E2. cbn [result_bind].
  rewrite to_string_or_string.
  assert (E3 : (if truthy (Some (JStr (mi_note m) : value number))
                then
                  result_bind (Ok (or_default (mi_note m) []))
                    (fun s =>
                       Ok ((m1 ++ report_sideEffects (mi_sideEffects m))
                           ++ str "Note:" ++ LF ++ s ++ LF))
                else
                  Ok ((m1 ++ report_sideEffects (mi_sideEffects m))
                      ++ str "Note:" ++ LF ++ default_note ++ LF))
               = Ok (report m)).
  { unfold report, m1, m0. destruct (mi_note m); cbn [truthy result_bind or_default];
      rewrite <- !app_assoc; reflexivity. }
  rewrite E3. reflexivity.
Qed.

Lemma formatMedicineData_schema_witness :
  formatMedicineData (R := literal_runtime) (JObj ibuprofen_props)
  = Ok (join LF [str "Ibuprofen"; [];
                 str "Uses:"; str "- pain"; str "- fever"; [];
                 str "Side Effects:"; str "- Common:"; str "  - nausea"; [];
                 str "- Severity not specified:"; [];
                 str "Note:"; default_note]).
Proof.
  apply (formatMedicineData_schema literal_runtime ibuprofen_props ibuprofen).
  split; [reflexivity|]. split; [reflexivity|]. split; [|reflexivity].
  eexists. split; [reflexivity|].
  constructor.
  { eexists. split; [reflexivity|]. split; reflexivity. }
  constructor.
  { eexists. split; [reflexivity|]. split; reflexivity. }
  constructor.
Defined.

(** X8. Whenever the formatter returns, the report is not empty and has no
    white space at either end, whatever the fields hold (a name or a note
    made of white space included). *)
Theorem formatMedicineData_trimmed (R : Runtime) (data : value number)
  (text : jsstring) :
  formatMedicineData data = Ok text -> text <> [] /\ trimmed text.
Proof.
  intros H.
  destruct (formatMedicineData_shape _ _ H)
    as [name [note [head [middle [note_text [_ [_ [_ [_ ->]]]]]]]]].
  split; [|apply trim_trimmed].
  rewrite trim_note_section.
  destruct (trimStart (head ++ LF ++ LF ++ middle)); discriminate.
Qed.

Lemma formatMedicineData_trimmed_witness :
  str "Note:" ++ LF ++ default_note <> []
  /\ trimmed (str "Note:" ++ LF ++ default_note).
Proof.
  apply (formatMedicineData_trimmed literal_runtime
           (JObj [(str "name", JStr (str "  "))])).
  reflexivity.
Defined.

(** X9. Whenever the formatter returns on data whose [note] is missing or
    falsy, the report ends with the note header and the fixed disclaimer. *)
Theorem formatMedicineData_default_note (R : Runtime) (data : value number)
  (note : option (value number)) (text : jsstring) :
  get data (str "note") = Ok note -> truthy note = false ->
  formatMedicineData data = Ok text ->
  exists before, text = before ++ str "Note:" ++ LF ++ default_note.
Proof.
  intros Hnote Hfalsy H.
  destruct (formatMedicineData_shape _ _ H)
    as [name [note' [head [middle [note_text [_ [_ [Hn [Ht ->]]]]]]]]].
  assert (note' = note) by congruence. subst note'.
  assert (note_text = default_note).
  { unfold to_string_or in Ht. rewrite Hfalsy in Ht.
    destruct note; injection Ht as <-; reflexivity. }
  subst note_text. rewrite trim_note_section.
  eexists. reflexivity.
Qed.

Lemma formatMedicineData_default_note_witness :
  exists before,
    str "Aspirin" ++ LF ++ LF ++ str "Note:" ++ LF ++ default_note
    = before ++ str "Note:" ++ LF ++ default_note.
Proof.
  apply (formatMedicineData_default_note literal_runtime
           (JObj [(str "name", JStr (str "Aspirin")); (str "note", JNull)])
           (Some JNull)); reflexivity.
Defined.

(** X10. Whenever the formatter returns on data whose [note] is a string
    that is not blank, the report ends with the note header and that
    string, less the white space that ends it. *)
Theorem formatMedicineData_custom_note (R : Runtime) (data : value number)
  (note text : jsstring) :
  get data (str "note") = Ok (Some (JStr note)) -> trimEnd note <> [] ->
  formatMedicineData data = Ok text ->
  exists before, text = before ++ str "Note:" ++ LF ++ trimEnd note.
Proof.
  intros Hnote Hne H.
  destruct (formatMedicineData_shape _ _ H)
    as [name [note' [head [middle [note_text [_ [_ [Hn [Ht ->]]]]]]]]].
  assert (note' = Some (JStr note)) by congruence. subst note'.
  assert (note_text = note).
  { rewrite to_string_or_string in Ht. injection Ht as <-.
    destruct note; [|reflexivity]. exfalso. apply Hne. reflexivity. }
  subst note_text. rewrite trim_note_section.
  assert (K : trimEnd (LF ++ note ++ LF) = LF ++ trimEnd note).
  { destruct (trimEnd_split note) as [ws [E Hws]].
    destruct (exists_last Hne) as [init [l El]].
    pose proof (trimEnd_last _ _ _ El) as Hl.
    rewrite El in E. rewrite El. clear El Hne H Ht Hn Hnote. subst note.
    replace (LF ++ ((init ++ [l]) ++ ws) ++ LF)
      with ((LF ++ init) ++ l :: (ws ++ LF))
      by (rewrite <- !app_assoc; reflexivity).
    rewrite (trimEnd_keep (LF ++ init) l (ws ++ LF)).
    - rewrite <- app_assoc. reflexivity.
    - exact Hl.
    - unfold white. apply Forall_app. split; [exact Hws|].
      repeat constructor. }
  rewrite K. eexists. reflexivity.
Qed.

Lemma formatMedicineData_custom_note_witness :
  exists before,
    str "Unknown medicine" ++ LF ++ LF ++ str "Note:" ++ LF ++ str "Ask."
    = before ++ str "Note:" ++ LF ++ trimEnd (str "Ask. ").
Proof.
  apply (formatMedicineData_custom_note literal_runtime
           (JObj [(str "note", JStr (str "Ask. "))])).
  - reflexivity.
  - discriminate.
  - reflexivity.
Defined.

(** X11. Whenever the formatter returns on data whose [name] is missing or
    falsy, the report begins with the fallback name and a blank line. *)
Theorem formatMedicineData_unknown_name (R : Runtime) (data : value number)
  (name : option (value number)) (text : jsstring) :
  get data (str "name") = Ok name -> truthy name = false ->
  formatMedicineData data = Ok text ->
  exists rest, text = str "Unknown medicine" ++ LF ++ LF ++ rest.
Proof.
  intros Hname Hfalsy H.
  destruct (formatMedicineData_shape _ _ H)
    as [name' [note [head [middle [note_text [Hn [Hh [_ [_ ->]]]]]]]]].
  assert (name' = name) by congruence. subst name'.
  assert (head = str "Unknown medicine").
  { unfold to_string_or in Hh. rewrite Hfalsy in Hh.
    destruct name; injection Hh as <-; reflexivity. }
  subst head. rewrite trim_note_section.
  change (trimStart (str "Unknown medicine" ++ LF ++ LF ++ middle))
    with (str "Unknown medicine" ++ LF ++ LF ++ middle).
  exists (middle ++ str "Note:" ++ trimEnd (LF ++ note_text ++ LF)).
  rewrite <- !app_assoc. reflexivity.
Qed.

Lemma formatMedicineData_unknown_name_witness :
  exists rest,
    str "Unknown medicine" ++ LF ++ LF ++ str "Note:" ++ LF ++ str "Ask."
    = str "Unknown medicine" ++ LF ++ LF ++ rest.
Proof.
  apply (formatMedicineData_unknown_name literal_runtime
           (JObj [(str "name", JStr []); (str "note", JStr (str "Ask."))])
           (Some (JStr []))); reflexivity.
Defined.

(** X12. An object whose [uses] and [sideEffects] are anything but
    non-empty arrays is rendered as if it had neither: the name line and
    the note section, and nothing between them. *)
Theorem formatMedicineData_without_lists (R : Runtime)
  (props : list (jsstring * value number)) :
  no_items (lookup (str "uses") props) ->
  no_items (lookup (str "sideEffects") props) ->
  formatMedicineData (JObj props)
  = result_bind
      (to_string_or (lookup (str "name") props) (str "Unknown medicine"))
      (fun head =>
         result_bind (to_string_or (lookup (str "note") props) default_note)
           (fun note =>
              Ok (trim (head ++ LF ++ LF ++ str "Note:" ++ LF ++ note ++ LF)))).
Proof.
  intros Hu Hs. unfold formatMedicineData, get. cbn [result_bind].
  destruct (to_string_or (lookup (str "name") props) (str "Unknown medicine"))
    as [head|e]; [|reflexivity].
  cbn [result_bind].
  assert (E1 : forall m0 : jsstring,
            match isArray (lookup (str "uses") props) with
            | Some ((_ :: _) as items) =>
                result_bind (format_uses (m0 ++ str "Uses:" ++ LF) items)
                  (fun message => Ok (message ++ LF))
            | _ => Ok m0
            end = Ok m0).
  { intros m0. destruct Hu as [-> | ->]; reflexivity. }
  rewrite E1. cbn [result_bind].
  assert (E2 : forall m0 : jsstring,
            match isArray (lookup (str "sideEffects") props) with
            | Some ((_ :: _) as groups) =>
                format_groups (m0 ++ str "Side Effects:" ++ LF) groups
            | _ => Ok m0
            end = Ok m0).
  { intros m0. destruct Hs as [-> | ->]; reflexivity. }
  rewrite E2. cbn [result_bind].
  unfold to_string_or.
  destruct (lookup (str "note") props) as [v|].
  - destruct (truthy (Some v)); cbn [result_bind].
    + destruct (to_string v); cbn [result_bind];
        rewrite <- ?app_assoc; reflexivity.
    + rewrite <- ?app_assoc. reflexivity.
  - cbn [truthy result_bind]. rewrite <- ?app_assoc. reflexivity.
Qed.

Lemma formatMedicineData_without_lists_witness :
  formatMedicineData (R := literal_runtime)
    (JObj [(str "uses", JStr (str "pain")); (str "sideEffects", JArr []);
           (str "name", JStr (str "Aspirin"))])
  = Ok (str "Aspirin" ++ LF ++ LF ++ str "Note:" ++ LF ++ default_note).
Proof.
  apply (formatMedicineData_without_lists literal_runtime
           [(str "uses", JStr (str "pain")); (str "sideEffects", JArr []);
            (str "name", JStr (str "Aspirin"))]).
  - left. reflexivity.
  - right. reflexivity.
Defined.

(** X13. On parsed JSON that is not an object: [null] makes the formatter
    throw (line 44 reads [data.name]); a boolean, a number, a string or an
    array has none of the four fields and gets the all-default report. *)
Theorem formatMedicineData_not_an_object (R : Runtime)
  (data : value number) :
  match data with
  | JObj _ => True
  | JNull => formatMedicineData data = Throw TypeError
  | _ =>
      formatMedicineData data
      = Ok (str "Unknown medicine" ++ LF ++ LF ++ str "Note:" ++ LF
            ++ default_note)
  end.
Proof.
  destruct data; solve [reflexivity | exact I].
Qed.

(** X14 is [formatMedicineData_returns] above; this is an input for it. *)
Lemma formatMedicineData_returns_witness :
  exists text,
    formatMedicineData (R := literal_runtime) (JObj ibuprofen_props) = Ok text.
Proof.
  apply (formatMedicineData_returns (R := literal_runtime) ibuprofen_props).
  - reflexivity.
  - intros groups E. injection E as <-.
    intros [K|[K|[]]]; discriminate K.
Defined.

(* ================================================================== *)
(** * More on the handler *)
(* ================================================================== *)

(** The five ways a request ends: refused; failed at the model handle;
    failed between the handle and the completion; answered; answered with a
    warning. *)
Lemma handler_cases (R : Runtime) (up : upstream)
  (req_body : option (value number)) :
  Eff.run (handler up req_body) = (Ok bad_request, [])
  \/ (exists err,
        Eff.run (handler up req_body)
        = (Ok upstream_failed,
           [GetGenerativeModel model_name;
            ConsoleError (str "Gemini Error:") err]))
  \/ (exists err q,
        Eff.run (handler up req_body)
        = (Ok upstream_failed,
           [GetGenerativeModel model_name; GenerateContent (prompt_for q);
            ConsoleError (str "Gemini Error:") err]))
  \/ (exists q text raw,
        Eff.run (handler up req_body)
        = (Ok (answer text raw),
           [GetGenerativeModel model_name; GenerateContent (prompt_for q)]))
  \/ (exists q text raw,
        Eff.run (handler up req_body)
        = (Ok (answer text raw),
           [GetGenerativeModel model_name; GenerateContent (prompt_for q);
            ConsoleWarn warning])).
Proof.
  unfold Eff.run, handler, Eff.bind, Eff.lift, Eff.try_catch, Eff.emit.
  assert (Hget : exists query,
            get (body_or_empty req_body) (str "query") = Ok query).
  { destruct req_body as [[ | | | | | ]|]; eexists; reflexivity. }
  destruct Hget as [query ->].
  destruct (truthy query); cbn [negb]; [|left; reflexivity].
  right. cbn [app].
  destruct (getGenerativeModel up model_name) as [[]|err];
    [|left; exists err; reflexivity].
  destruct (to_string_or query (str "undefined")) as [q|err];
    [|left; exists err; reflexivity].
  right. cbn [app].
  destruct (generateContent up (prompt_for q)) as [rawText|err];
    [|left; exists err, q; reflexivity].
  right. unfold parse_and_format, Eff.ret, Eff.bind, Eff.emit.
  destruct (JSON_parse (json_candidate rawText)) as [parsed|e].
  - destruct (formatMedicineData parsed) as [text|e].
    + left. exists q, text, (Some parsed). reflexivity.
    + right. exists q, rawText, (Some parsed). reflexivity.
  - right. exists q, rawText, None. reflexivity.
Qed.


(** X16. No retry: a request asks the upstream for at most one completion,
    and for none before it has asked for the model handle. *)
Theorem handler_single_completion (R : Runtime) (up : upstream)
  (req_body : option (value number)) :
  length (filter is_generate (snd (Eff.run (handler up req_body)))) <= 1
  /\ (snd (Eff.run (handler up req_body)) = []
      \/ exists rest,
           snd (Eff.run (handler up req_body))
           = GetGenerativeModel model_name :: rest).
Proof.
  destruct (handler_cases R up req_body)
    as [H|[[err H]|[[err [q H]]|[[q [text [raw H]]]|[q [text [raw H]]]]]]];
    rewrite H; simpl; (split; [lia|]);
    solve [left; reflexivity | right; eexists; reflexivity].
Qed.

(** X17. [console.error] is called exactly on the requests answered 500,
    and [console.warn] only on requests answered 200. *)
Theorem handler_error_logged (R : Runtime) (up : upstream)
  (req_body : option (value number)) (resp : response) (trace : list event) :
  Eff.run (handler up req_body) = (Ok resp, trace) ->
  (status resp = 500%Z <-> existsb is_console_error trace = true)
  /\ (In (ConsoleWarn warning) trace -> status resp = 200%Z).
Proof.
  intros Hrun.
  destruct (handler_cases R up req_body)
    as [H|[[err H]|[[err [q H]]|[[q [text [raw H]]]|[q [text [raw H]]]]]]];
    rewrite H in Hrun; injection Hrun as <- <-; simpl;
    (split; [split; intros K; solve [reflexivity | discriminate K]|]);
    intros K; repeat (destruct K as [K|K]; try discriminate K);
    solve [reflexivity | contradiction].
Qed.

Lemma handler_error_logged_witness :
  (status (R := literal_runtime) upstream_failed = 500%Z
   <-> existsb is_console_error
         [GetGenerativeModel model_name;
          GenerateContent (prompt_for (str "aspirin"));
          ConsoleError (str "Gemini Error:")
            (UpstreamError (str "429 quota exceeded"))] = true)
  /\ (In (ConsoleWarn warning)
        [GetGenerativeModel model_name;
         GenerateContent (prompt_for (str "aspirin"));
         ConsoleError (str "Gemini Error:")
           (UpstreamError (str "429 quota exceeded"))]
      -> status (R := literal_runtime) upstream_failed = 200%Z).
Proof.
  apply (handler_error_logged literal_runtime
           (upstream_rejecting (UpstreamError (str "429 quota exceeded")))
           aspirin_request).
  reflexivity.
Defined.

(** X18. Once the completion is there the answer is always 200, and [raw]
    is the parsed value exactly when the candidate text parsed, whether or
    not the formatter then returned; it is [null] when it did not parse. *)
Theorem handler_raw_is_parsed (R : Runtime) (up : upstream)
  (req_body : option (value number)) (rawText : jsstring) :
  upstream_returns up req_body rawText ->
  exists text,
    fst (Eff.run (handler up req_body))
    = Ok {| status := 200;
            body := JObj [(str "text", JStr text);
                          (str "raw",
                           match JSON_parse (json_candidate rawText) with
                           | Ok parsed => parsed
                           | Throw _ => JNull
                           end)] |}.
Proof.
  intros Hup. destruct (handler_returns up req_body rawText Hup) as [q Hrun].
  rewrite Hrun. unfold Eff.try_catch, Eff.bind, parse_and_format.
  destruct (JSON_parse (json_candidate rawText)) as [parsed|e].
  - destruct (formatMedicineData parsed) as [text|e]; eexists; reflexivity.
  - eexists. reflexivity.
Qed.

Lemma handler_raw_is_parsed_witness :
  exists text,
    fst (Eff.run (handler (R := literal_runtime)
                    (upstream_answering
                       (str "{" ++ quoted "sideEffects" ++ str ":[null]}"))
                    aspirin_request))
    = Ok {| status := 200;
            body := JObj [(str "text", JStr text);
                          (str "raw",
                           JObj [(str "sideEffects", JArr [JNull])])] |}.
Proof.
  apply (handler_raw_is_parsed literal_runtime
           (upstream_answering
              (str "{" ++ quoted "sideEffects" ++ str ":[null]}"))
           aspirin_request
           (str "{" ++ quoted "sideEffects" ++ str ":[null]}")).
  exists (JStr (str "aspirin")), (str "aspirin"). repeat split; reflexivity.
Defined.

(** X19. An extracted candidate that is the empty string is not replaced by
    the upstream text ([??] only replaces [null]): it fails to parse, and
    the answer carries the upstream text with [raw] null, even when the
    text holds valid JSON after its first, empty, fence. *)
Theorem handler_empty_candidate (R : Runtime) (up : upstream)
  (req_body : option (value number)) (rawText : jsstring) :
  upstream_returns up req_body rawText ->
  extractJson (Some rawText) = Some [] ->
  fst (Eff.run (handler up req_body))
  = Ok {| status := 200;
          body := JObj [(str "text", JStr rawText); (str "raw", JNull)] |}.
Proof.
  intros Hup He. destruct (handler_returns up req_body rawText Hup) as [q Hrun].
  rewrite Hrun. unfold Eff.try_catch, Eff.bind, parse_and_format.
  unfold json_candidate. rewrite He. reflexivity.
Qed.

Lemma handler_empty_candidate_witness :
  fst (Eff.run (handler (R := literal_runtime)
                  (upstream_answering empty_fence_reply) aspirin_request))
  = Ok {| status := 200;
          body := JObj [(str "text", JStr empty_fence_reply);
                        (str "raw", JNull)] |}.
Proof.
  apply (handler_empty_candidate literal_runtime
           (upstream_answering empty_fence_reply) aspirin_request).
  - exists (JStr (str "aspirin")), (str "aspirin"). repeat split; reflexivity.
  - reflexivity.
Defined.

(** X20. The prompt is built inside the [try]: a truthy query that cannot be
    converted to a string is answered 500, the conversion error goes to
    [console.error], and no completion is asked of the upstream. *)
Theorem handler_unconvertible_query (R : Runtime) (up : upstream)
  (req_body : option (value number)) (query : value number) (err : exn) :
  get (body_or_empty req_body) (str "query") = Ok (Some query) ->
  truthy (Some query) = true ->
  getGenerativeModel up model_name = Ok tt ->
  to_string query = Throw err ->
  Eff.run (handler up req_body)
  = (Ok {| status := 500;
           body := JObj [(str "error",
                          JStr (str "Gemini AI request failed"))] |},
     [GetGenerativeModel model_name;
      ConsoleError (str "Gemini Error:") err]).
Proof.
  intros Hq Ht Hm Hs.
  unfold Eff.run, handler, Eff.bind, Eff.lift, Eff.try_catch, Eff.emit.
  rewrite Hq, Ht. cbn [negb]. rewrite Hm. unfold to_string_or.
  rewrite Ht, Hs. reflexivity.
Qed.

Lemma handler_unconvertible_query_witness :
  Eff.run (handler (R := literal_runtime) (upstream_answering aspirin_reply)
             (Some (JObj [(str "query",
                           JObj [(str "toString", JNull)])])))
  = (Ok {| status := 500;
           body := JObj [(str "error",
                          JStr (str "Gemini AI request failed"))] |},
     [GetGenerativeModel model_name;
      ConsoleError (str "Gemini Error:") TypeError]).
Proof.
  apply (handler_unconvertible_query literal_runtime _ _
           (JObj [(str "toString", JNull)])); reflexivity.
Defined.

(** X21. The handler checks only that the query is truthy, not that it is a
    string: any truthy query is converted to a string and set verbatim,
    without escaping, between the two fixed parts of the prompt, and that
    prompt is what the upstream is asked to complete. *)
Theorem handler_prompt_verbatim (R : Runtime) (up : upstream)
  (req_body : option (value number)) (query : value number) (q : jsstring) :
  get (body_or_empty req_body) (str "query") = Ok (Some query) ->
  truthy (Some query) = true ->
  getGenerativeModel up model_name = Ok tt ->
  to_string query = Ok q ->
  exists rest,
    snd (Eff.run (handler up req_body))
    = GetGenerativeModel model_name
      :: GenerateContent (prompt_before_query ++ q ++ prompt_after_query)
      :: rest.
Proof.
  intros Hq Ht Hm Hs.
  unfold Eff.run, handler, Eff.bind, Eff.lift, Eff.try_catch, Eff.emit.
  rewrite Hq, Ht. cbn [negb]. rewrite Hm. unfold to_string_or.
  rewrite Ht, Hs. cbn [app]. unfold prompt_for.
  destruct (generateContent up (prompt_before_query ++ q ++ prompt_after_query))
    as [rawText|err].
  - unfold parse_and_format, Eff.ret, Eff.bind, Eff.emit.
    destruct (JSON_parse (json_candidate rawText)) as [parsed|e];
      [destruct (formatMedicineData parsed)|]; eexists; reflexivity.
  - eexists. reflexivity.
Qed.

Lemma handler_prompt_verbatim_witness :
  exists rest,
    snd (Eff.run (handler (R := literal_runtime)
                    (upstream_answering aspirin_reply)
                    (Some (JObj [(str "query",
                                  JArr [JStr (quoted "x"); JBool true])]))))
    = GetGenerativeModel model_name
      :: GenerateContent (prompt_before_query ++ (quoted "x" ++ str ",true")
                          ++ prompt_after_query)
      :: rest.
Proof.
  apply (handler_prompt_verbatim literal_runtime _ _
           (JArr [JStr (quoted "x"); JBool true])); reflexivity.
Defined.

(** X22. The loop over [uses] passes over every entry that is neither a
    string nor an object (a number, a boolean, [null]): the lines written
    are those of the other entries, in their order. *)
Theorem format_uses_skips (R : Runtime) (uses : list (value number))
  (message : jsstring) :
  format_uses message uses
  = format_uses message (filter is_rendered_use uses).
Proof.
  revert message. induction uses as [|u uses IH]; intros message;
    [reflexivity|].
  destruct u; cbn [filter is_rendered_use format_uses];
    try (cbn [format_use result_bind]; apply IH);
    destruct (format_use message _); cbn [result_bind];
    solve [apply IH | reflexivity].
Qed.
